(** * Jarvis commerce agent: the conversational response engine

    A shallow embedding of
    - the rule-based reply generator [buildHeuristicResponse] and the route
      handler [POST] of the assistant API, and
    - the state, the submission round trip and the speech-recognition
      handlers of the [VoiceAgent] component, its voice selection, and the
      component under arbitrary sequences of events,
    - the task board: validation, the three operations on the task list
      and the suggestions derived from the tasks,
    followed by the properties proved about them.

    JavaScript strings are sequences of UTF-16 code units, and that is how
    they are modelled: [trim], [charAt], [slice] and the regular
    expressions of the source all work on code units. *)

From Stdlib Require Import List NArith Bool Ascii String Lia.
From Stdlib Require Import DecimalString PeanoNat.
Import ListNotations.

(** ** JavaScript strings *)

Module JS.

Definition code_unit := N.
Definition js_string := list code_unit.

(** An ASCII literal of the source as a sequence of code units. *)
Fixpoint u16 (s : string) : js_string :=
  match s with
  | EmptyString => []
  | String a rest => N_of_ascii a :: u16 rest
  end.

(** Truthiness of a string: only the empty string is falsy. *)
Definition truthy (s : js_string) : bool :=
  match s with [] => false | _ :: _ => true end.

(** [WhiteSpace] and [LineTerminator] of ECMAScript, which [trim] strips.
    All of them are single code units. *)
Definition is_whitespace (c : code_unit) : bool :=
  ((9 <=? c) && (c <=? 13) || (c =? 32) || (c =? 160) || (c =? 5760)
   || (8192 <=? c) && (c <=? 8202) || (c =? 8232) || (c =? 8233)
   || (c =? 8239) || (c =? 8287) || (c =? 12288) || (c =? 65279))%N.

Fixpoint trimStart (s : js_string) : js_string :=
  match s with
  | [] => []
  | c :: rest => if is_whitespace c then trimStart rest else s
  end.

Definition trimEnd (s : js_string) : js_string := rev (trimStart (rev s)).

Definition trim (s : js_string) : js_string := trimEnd (trimStart s).

(** [Array.prototype.join]. *)
Fixpoint join (sep : js_string) (parts : list js_string) : js_string :=
  match parts with
  | [] => []
  | [p] => p
  | p :: rest => p ++ sep ++ join sep rest
  end.

(** [Array.prototype.slice(-n)]: the last [n] elements. *)
Definition slice_last {A : Type} (n : nat) (l : list A) : list A :=
  skipn (List.length l - n) l.

(** A number in a template literal: its decimal digits. *)
Definition decimal (n : N) : js_string :=
  u16 (NilZero.string_of_uint (N.to_uint n)).

Definition is_ascii_lower (c : code_unit) : bool := ((97 <=? c) && (c <=? 122))%N.

(** Case folding restricted to the ASCII letters. *)
Definition ascii_upper (c : code_unit) : code_unit :=
  if is_ascii_lower c then (c - 32)%N else c.

Definition is_surrogate (c : code_unit) : bool := ((55296 <=? c) && (c <=? 57343))%N.

Section CaseMapping.

(** Unicode's full upper-case mapping of the code units that are neither
    ASCII nor surrogates is the platform's table; nothing below depends on
    its entries, so it is a parameter. *)
Variable unicode_upper : code_unit -> js_string.

(** [String.prototype.toUpperCase] on a string of one code unit, which is
    all [sentenceCase] and the regular expressions apply it to.  A lone
    surrogate has no case mapping. *)
Definition toUpperCase_unit (c : code_unit) : js_string :=
  if (c <? 128)%N then [ascii_upper c]
  else if is_surrogate c then [c]
  else unicode_upper c.

(** [Canonicalize] of a regular expression with the [i] flag and without
    the [u] flag (ECMAScript, 22.2.5.6): upper-case the code unit; keep the
    original when the result is not a single code unit, or when a
    non-ASCII unit would become an ASCII one. *)
Definition canonicalize (c : code_unit) : code_unit :=
  match toUpperCase_unit c with
  | [cu] => if ((128 <=? c) && (cu <? 128))%N then c else cu
  | _ => c
  end.

(** The pattern, a literal word, matched at the start of [s]. *)
Fixpoint match_here (pat s : js_string) : bool :=
  match pat, s with
  | [], _ => true
  | _ :: _, [] => false
  | p :: pat', c :: s' =>
      (canonicalize p =? canonicalize c)%N && match_here pat' s'
  end.

(** [/w1|w2|.../i.test(s)]: some alternative matches at some position.
    The expressions of the source carry no [g] or [y] flag, so [test]
    keeps no state between calls. *)
Fixpoint test_i (alternatives : list js_string) (s : js_string) : bool :=
  existsb (fun pat => match_here pat s) alternatives
  || match s with
     | [] => false
     | _ :: s' => test_i alternatives s'
     end.

End CaseMapping.

(** The reading of the expressions above that the handlers rely on: a
    word occurs in [s] when some substring of [s] equals it up to the case
    of the ASCII letters. *)
Definition contains_ci (word s : js_string) : Prop :=
  exists pre m post,
    s = pre ++ m ++ post /\ map ascii_upper m = map ascii_upper word.

Fixpoint starts_with_ci (word s : js_string) : bool :=
  match word, s with
  | [], _ => true
  | _ :: _, [] => false
  | p :: word', c :: s' =>
      (ascii_upper p =? ascii_upper c)%N && starts_with_ci word' s'
  end.

Fixpoint includes_ci (word s : js_string) : bool :=
  starts_with_ci word s
  || match s with
     | [] => false
     | _ :: s' => includes_ci word s'
     end.

Definition is_ascii_word (word : js_string) : bool :=
  forallb (fun c => (c <? 128)%N) word.

(** [String.prototype.includes], and what it decides. *)
Definition substring (needle s : js_string) : Prop :=
  exists pre post, s = pre ++ needle ++ post.

Fixpoint startsWith (needle s : js_string) : bool :=
  match needle, s with
  | [], _ => true
  | _ :: _, [] => false
  | p :: needle', c :: s' => (p =? c)%N && startsWith needle' s'
  end.

Fixpoint includes (needle s : js_string) : bool :=
  startsWith needle s
  || match s with
     | [] => false
     | _ :: s' => includes needle s'
     end.

(** A case table to run the definitions with: Unicode's mapping on the
    Latin-1 range, the identity elsewhere. *)
Definition latin1_upper (c : code_unit) : js_string :=
  if (c =? 0xB5)%N then [0x39C%N]
  else if (c =? 0xDF)%N then [0x53; 0x53]%N
  else if (c =? 0xFF)%N then [0x178%N]
  else if ((0xE0 <=? c) && (c <=? 0xFE) && negb (c =? 0xF7))%N then [(c - 32)%N]
  else [c].

(** The code units that [toUpperCase] leaves alone whatever the table:
    ASCII other than the lower-case letters, and surrogates. *)
Definition fixed_case (c : code_unit) : bool :=
  if (c <? 128)%N then negb (is_ascii_lower c) else is_surrogate c.

(** A line that [sentenceCase] returns as it is: no white space at either
    end, and a first code unit of fixed case. *)
Definition settled_line (line : js_string) : bool :=
  match line with
  | [] => true
  | c :: _ =>
      negb (is_whitespace c) && fixed_case c
      && negb (is_whitespace (last line 0%N))
  end.

End JS.

Import JS.

(** ** The rule-based reply generator (assistant route) *)

(** [AssistantResponse] of the route: [reply] is required, the other two
    fields are optional. *)
Record AssistantResponse := {
  reply : js_string;
  summary : option js_string;
  followUps : option (list js_string)
}.

Definition marketplaces : list js_string :=
  [u16 "Amazon"; u16 "Flipkart"; u16 "Meesho"; u16 "Myntra"].

(** The alternatives of [/catalog|listing|sheet|excel|sku|product/i]. *)
Definition catalog_words : list js_string :=
  [u16 "catalog"; u16 "listing"; u16 "sheet"; u16 "excel"; u16 "sku";
   u16 "product"].

(** The alternatives of
    [/task|plan|today|remind|schedule|priority|deadline/i]. *)
Definition task_words : list js_string :=
  [u16 "task"; u16 "plan"; u16 "today"; u16 "remind"; u16 "schedule";
   u16 "priority"; u16 "deadline"].

(** The line feed that joins the lines of a reply. *)
Definition newline : js_string := [10%N].

(** The lines of the three section blocks.  The emoji are surrogate pairs
    (U+1F5C2 with the variation selector U+FE0F, U+1F6D2, U+1F916); the arrow is
    U+2192 and the dash U+2014. *)
Definition task_heading : js_string :=
  [0xD83D; 0xDDC2; 0xFE0F]%N ++ u16 " Daily Ops Blueprint:".

Definition task_section : list js_string :=
  [task_heading;
   u16 "- Prioritise based on impact " ++ [0x2192%N]
     ++ u16 " revenue, compliance, customer experience.";
   u16 "- Break work into 90-minute focus blocks with clear Done Definitions.";
   u16 "- Reserve the final block for QA checks and reporting back to leadership."].

Definition default_channelPlan : js_string :=
  u16 "Amazon, Flipkart, Meesho, and Myntra".

Definition catalog_heading (channelPlan : js_string) : js_string :=
  [0xD83D; 0xDED2]%N ++ u16 " " ++ channelPlan ++ u16 " Listing Automation:".

Definition catalog_section (channelPlan : js_string) : list js_string :=
  [catalog_heading channelPlan;
   u16 "- Clean your master sheet: ensure SKU, Title, MRP, Offer Price, Color, Size, Fabric, and Image URLs are present.";
   u16 "- Use the Catalog Automation Lab panel " ++ [0x2192%N]
     ++ u16 " upload the latest supplier file, then generate marketplace CSVs.";
   u16 "- Enrich copy automatically: include 3 USP bullet points, search keywords, and compliance notes for GST/Legal."].

Definition ready_section : list js_string :=
  [[0xD83E; 0xDD16]%N ++ u16 " Jarvis Ready:";
   u16 "- Share a task, question, or catalog sheet" ++ [0x2014%N]
     ++ u16 "I will prep the steps, automations, and documents you need."].

Definition task_followUps : list js_string :=
  [u16 "Should I schedule reminders and sync them to your preferred calendar?";
   u16 "Want me to draft stakeholder updates once each task is closed?"].

Definition catalog_followUps : list js_string :=
  [u16 "Would you like marketplace-compliant image naming rules generated?";
   u16 "Need SEO keywords per SKU for sponsored ads?"].

Definition generic_followUps : list js_string :=
  [u16 "Upload the latest catalog so I can generate ready-to-use marketplace sheets.";
   u16 "Tell me your top priority for today and I will create an execution timeline."].

Definition catalog_summary : js_string :=
  u16 "Catalog automation plan prepared with channel-specific actions.".
Definition task_summary : js_string := u16 "Daily operations plan generated.".
Definition standby_summary : js_string := u16 "Standing by for instructions.".

Section Generator.

Variable unicode_upper : code_unit -> js_string.

Definition sentenceCase (text : js_string) : js_string :=
  if negb (truthy text) then []
  else
    let trimmed := trim text in
    match trimmed with
    | [] => []                                   (* charAt(0) and slice(1) are both empty *)
    | c :: rest => toUpperCase_unit unicode_upper c ++ rest
    end.

Definition detectedMarketplaces (input : js_string) : list js_string :=
  filter (fun name => test_i unicode_upper [name] input) marketplaces.

Definition wantsCatalog (input : js_string) : bool :=
  test_i unicode_upper catalog_words input
  || Nat.ltb 0 (List.length (detectedMarketplaces input)).

Definition wantsTasks (input : js_string) : bool :=
  test_i unicode_upper task_words input.

Definition channelPlan (input : js_string) : js_string :=
  match detectedMarketplaces input with
  | [] => default_channelPlan
  | detected => join (u16 ", ") detected
  end.

Definition responseSections (input : js_string) : list js_string :=
  (if wantsTasks input then task_section else [])
  ++ (if wantsCatalog input then catalog_section (channelPlan input) else [])
  ++ (if negb (wantsCatalog input) && negb (wantsTasks input)
      then ready_section else []).

Definition heuristic_followUps (input : js_string) : list js_string :=
  let followUps :=
    (if wantsTasks input then task_followUps else [])
    ++ (if wantsCatalog input then catalog_followUps else []) in
  match followUps with
  | [] => generic_followUps
  | _ :: _ => followUps
  end.

Definition buildHeuristicResponse (input : js_string) : AssistantResponse :=
  {| reply := join newline (map sentenceCase (responseSections input));
     summary :=
       Some (if wantsCatalog input then catalog_summary
             else if wantsTasks input then task_summary
             else standby_summary);
     followUps := Some (heuristic_followUps input) |}.

End Generator.

(** ** The wire format shared by the route and the component *)

(** What [NextResponse.json] carries and what [response.json()] yields on
    the other side: [null], or a value seen through the four fields that
    are read from it, each of which may be absent (or [null], which the
    [??] of the component treats alike).  A field that is there has the
    type [AssistantResponse] declares for it.  A number, a string, a
    boolean or an array has none of the four, like the empty object.  The
    route answers with [{ error }], with an [AssistantResponse], or with
    whatever value the content of the remote model's message parses to. *)
Record ResponseFields := {
  field_reply : option js_string;
  field_summary : option js_string;
  field_followUps : option (list js_string);
  field_error : option js_string
}.

Inductive ResponseJson :=
| json_null
| json_object (fields : ResponseFields).

(** The fields of a value, where it has them.  What reading a field of
    [null] does is said where the source reads it. *)
Definition json_reply (data : ResponseJson) : option js_string :=
  match data with
  | json_null => None
  | json_object fields => field_reply fields
  end.

Definition json_summary (data : ResponseJson) : option js_string :=
  match data with
  | json_null => None
  | json_object fields => field_summary fields
  end.

Definition json_followUps (data : ResponseJson) : option (list js_string) :=
  match data with
  | json_null => None
  | json_object fields => field_followUps fields
  end.

Definition json_error (data : ResponseJson) : option js_string :=
  match data with
  | json_null => None
  | json_object fields => field_error fields
  end.

(** [{ error }]. *)
Definition error_object (text : js_string) : ResponseJson :=
  json_object
    {| field_reply := None; field_summary := None; field_followUps := None;
       field_error := Some text |}.

Definition json_of_response (r : AssistantResponse) : ResponseJson :=
  json_object
    {| field_reply := Some (reply r);
       field_summary := summary r;
       field_followUps := followUps r;
       field_error := None |}.

Inductive Role := user | assistant.

(** [response.ok]: a status in the range 200-299. *)
Definition ok (status : N) : bool := ((200 <=? status) && (status <=? 299))%N.

(** [a ?? b] on an optional string. *)
Definition nullish (a : option js_string) (b : js_string) : js_string :=
  match a with Some s => s | None => b end.

(** ** The route handler [POST] *)

Module Route.

Record ClientMessage := { role : Role; content : js_string }.

(** [AssistantPayload], the type the handler gives to the parsed body; a
    body that leaves [message] out is what its [body.message ?? ""] provides
    for.  A [message] that is there is a string and a [history] that is
    there is a list of messages, as the type says; a body that is a number,
    a string, a boolean or an array has neither field. *)
Record AssistantPayload := {
  message : option js_string;
  history : option (list ClientMessage)
}.

(** [await request.json()]: the body is not JSON, it is [null], or it is a
    payload. *)
Inductive RequestBody :=
| body_invalid
| body_null
| body_payload (body : AssistantPayload).

(** [process.env]. *)
Record Env := {
  env_OPENAI_API_KEY : option js_string;
  env_OPENAI_MODEL : option js_string
}.

Definition OPENAI_MODEL (env : Env) : js_string :=
  nullish (env_OPENAI_MODEL env) (u16 "gpt-4o-mini").

Inductive ChatRole := chat_system | chat_user | chat_assistant.

Definition chat_role (r : Role) : ChatRole :=
  match r with user => chat_user | assistant => chat_assistant end.

Record ChatMessage := { chat_from : ChatRole; chat_content : js_string }.

(** The request sent to the completion endpoint.  Its temperature and its
    response schema are constants of the source and play no part in what
    the handler does next. *)
Record ChatRequest := {
  authorization : js_string;
  model : js_string;
  messages : list ChatMessage
}.

(** What the completion endpoint does with the one request it gets, as far
    as the handler tells the cases apart. *)
Inductive RemoteBody :=
| body_unreadable                       (* response.json() rejects *)
| content_missing                       (* no choices[0].message.content, or a falsy one *)
| content_unparseable                   (* JSON.parse(messageContent) throws *)
| content_parsed (parsed : ResponseJson).

Inductive RemoteOutcome :=
| remote_unreachable                    (* fetch rejects *)
| remote_response (status : N) (body : RemoteBody).

(** The outcomes on which the handler's [try] throws after the request. *)
Definition remote_fails (outcome : RemoteOutcome) : bool :=
  match outcome with
  | remote_unreachable => true
  | remote_response st (content_parsed _) => negb (ok st)
  | remote_response _ _ => true
  end.

Record HttpResponse := { status : N; body : ResponseJson }.

(** [NextResponse.json(data, { status })]. *)
Definition json (data : ResponseJson) (st : N) : HttpResponse :=
  {| status := st; body := data |}.

(** The calls the handler makes, in order. *)
Inductive Call :=
| call_heuristic (input : js_string)
| call_remote (request : ChatRequest).

(** The body of a [try]: the calls made so far, and a value unless
    something was thrown. *)
Definition Try (A : Type) : Type := (list Call * option A)%type.

Definition ret {A : Type} (a : A) : Try A := ([], Some a).
Definition throw {A : Type} : Try A := ([], None).
Definition bind {A B : Type} (m : Try A) (k : A -> Try B) : Try B :=
  match m with
  | (calls, None) => (calls, None)
  | (calls, Some a) => let (calls', r) := k a in (calls ++ calls', r)
  end.

Notation "x <- m ;; k" := (bind m (fun x => k))
  (at level 61, m at next level, right associativity).

Definition SYSTEM_PROMPT : js_string :=
  newline
  ++ u16 "You are Jarvis, a proactive digital operations chief for Indian e-commerce founders." ++ newline
  ++ u16 "Goals:" ++ newline
  ++ u16 "1. Resolve the user's daily tasks, create prioritised plans, and anticipate blockers." ++ newline
  ++ u16 "2. Transform raw catalog data into marketplace-ready listings for Amazon, Flipkart, Meesho, and Myntra." ++ newline
  ++ u16 "3. When asked to work with spreadsheets, outline missing attributes, data cleaning steps, and automation suggestions." ++ newline
  ++ newline
  ++ u16 "Rules:" ++ newline
  ++ u16 "- Respond in clear, structured English." ++ newline
  ++ u16 "- Provide bullet plans, checklists, and channel-specific playbooks." ++ newline
  ++ u16 "- If something is ambiguous, make a confident assumption and move forward" ++ [0x2014%N]
  ++ u16 "do not ask the user for clarification." ++ newline
  ++ u16 "- End with 2-3 proactive follow-up suggestions where relevant." ++ newline
  ++ newline
  ++ u16 "Return your answer as JSON following the schema provided by the client." ++ newline.

Section Handler.

Variable unicode_upper : code_unit -> js_string.
Variable env : Env.
(** The completion endpoint, as a function of the request it receives. *)
Variable remote : ChatRequest -> RemoteOutcome.

Definition heuristic (input : js_string) : Try AssistantResponse :=
  ([call_heuristic input], Some (buildHeuristicResponse unicode_upper input)).

(** [await request.json()] with the read of [body.message] that follows
    it: the first rejects on a body that is not JSON, the second throws a
    [TypeError] on [null]. *)
Definition request_json (request : RequestBody) : Try AssistantPayload :=
  match request with
  | body_invalid => throw
  | body_null => throw
  | body_payload body => ret body
  end.

(** [await fetch(...)] followed by the [response.ok] test, [response.json()],
    the [messageContent] test and [JSON.parse]. *)
Definition complete (request : ChatRequest) : Try ResponseJson :=
  ([call_remote request],
   match remote request with
   | remote_unreachable => None
   | remote_response st b =>
       if negb (ok st) then None
       else match b with
            | content_parsed parsed => Some parsed
            | _ => None
            end
   end).

Definition chat_messages (history : list ClientMessage)
    (incomingMessage : js_string) : list ChatMessage :=
  {| chat_from := chat_system; chat_content := SYSTEM_PROMPT |}
  :: map (fun m => {| chat_from := chat_role (role m); chat_content := content m |})
       history
  ++ [{| chat_from := chat_user; chat_content := incomingMessage |}].

Definition POST_try (request : RequestBody) : Try HttpResponse :=
  body <- request_json request ;;
  let incomingMessage := trim (nullish (message body) []) in
  if negb (truthy incomingMessage) then
    ret (json (error_object (u16 "Message is required.")) 400)
  else
    match env_OPENAI_API_KEY env with
    | None | Some [] =>
        r <- heuristic incomingMessage ;;
        ret (json (json_of_response r) 200)
    | Some key =>
        let history :=
          (* [entry && entry.role && entry.content]: an entry and its role
             are always truthy, its content when it is not empty *)
          slice_last 6
            (filter (fun entry => truthy (content entry))
               (match history body with Some h => h | None => [] end)) in
        let payload :=
          {| authorization := u16 "Bearer " ++ key;
             model := OPENAI_MODEL env;
             messages := chat_messages history incomingMessage |} in
        parsed <- complete payload ;;
        ret (json parsed 200)
    end.

(** [try { ... } catch (error) { ... }] around the whole handler. *)
Definition POST (request : RequestBody) : list Call * HttpResponse :=
  match POST_try request with
  | (calls, Some response) => (calls, response)
  | (calls, None) =>
      (calls ++ [call_heuristic []],
       json (json_of_response (buildHeuristicResponse unicode_upper [])) 200)
  end.

End Handler.

End Route.

(** ** The [VoiceAgent] component *)

Module Agent.

Record Message := {
  id : js_string;
  role : Role;
  content : js_string;
  createdAt : N
}.

(** The component's state: one field per [useState].  A callback reads
    the fields through its closure, as they were in the render that created
    it, and writes the state as it is when the callback runs. *)
Record State := {
  messages : list Message;
  input : js_string;
  listening : bool;
  interimTranscript : js_string;
  isLoading : bool;
  autoSpeak : bool;
  error : option js_string
}.

Definition setMessages (f : list Message -> list Message) (st : State) : State :=
  {| messages := f (messages st); input := input st; listening := listening st;
     interimTranscript := interimTranscript st; isLoading := isLoading st;
     autoSpeak := autoSpeak st; error := error st |}.

Definition setInput (v : js_string) (st : State) : State :=
  {| messages := messages st; input := v; listening := listening st;
     interimTranscript := interimTranscript st; isLoading := isLoading st;
     autoSpeak := autoSpeak st; error := error st |}.

Definition setListening (v : bool) (st : State) : State :=
  {| messages := messages st; input := input st; listening := v;
     interimTranscript := interimTranscript st; isLoading := isLoading st;
     autoSpeak := autoSpeak st; error := error st |}.

Definition setInterimTranscript (v : js_string) (st : State) : State :=
  {| messages := messages st; input := input st; listening := listening st;
     interimTranscript := v; isLoading := isLoading st;
     autoSpeak := autoSpeak st; error := error st |}.

Definition setIsLoading (v : bool) (st : State) : State :=
  {| messages := messages st; input := input st; listening := listening st;
     interimTranscript := interimTranscript st; isLoading := v;
     autoSpeak := autoSpeak st; error := error st |}.

Definition setAutoSpeak (v : bool) (st : State) : State :=
  {| messages := messages st; input := input st; listening := listening st;
     interimTranscript := interimTranscript st; isLoading := isLoading st;
     autoSpeak := v; error := error st |}.

Definition setError (v : option js_string) (st : State) : State :=
  {| messages := messages st; input := input st; listening := listening st;
     interimTranscript := interimTranscript st; isLoading := isLoading st;
     autoSpeak := autoSpeak st; error := v |}.

(** The initial values of the [useState] calls. *)
Definition initial : State :=
  {| messages := []; input := []; listening := false; interimTranscript := [];
     isLoading := false; autoSpeak := true; error := None |}.

(** What [crypto.randomUUID()] and [Date.now()] return for one message. *)
Record Fresh := { uuid : js_string; now : N }.

(** The body of the request to [/api/assistant]. *)
Record RequestBody := {
  request_message : js_string;
  request_history : list Message
}.

(** What the component does to the outside, and the utterances the
    recognition handler hands to [submitMessage], in order. *)
Inductive Effect :=
| call_submitMessage (text : js_string)
| fetch_assistant (request : RequestBody)
| speak (text : js_string).

(** A thrown value: an [Error] with its message, or anything else. *)
Inductive Thrown :=
| thrown_Error (message : js_string)
| thrown_other.

(** [await response.json()]. *)
Inductive ResponseBody :=
| body_rejected (err : Thrown)
| body_json (data : ResponseJson).

(** How the awaited [fetch] ends. *)
Inductive FetchOutcome :=
| fetch_rejected (err : Thrown)
| fetch_response (status : N) (body : ResponseBody).

(** A call suspended at its [await]: the request in flight, and the
    [autoSpeak] of the render the callback was created in. *)
Record Pending := {
  pending_request : RequestBody;
  pending_autoSpeak : bool
}.

(** [submitMessage] up to its [await fetch(...)]: the guard, the user's
    message, the four resets and the request.  [render] is the state of the
    render in which [useCallback] created the callback that runs: the guard
    reads its [isLoading], the request carries its [messages], and the
    suspended call keeps its [autoSpeak].  [st] is the state when the
    callback runs; the setters act on it, [setMessages] through its
    updater. *)
Definition submitMessage_in (render st : State) (fresh : Fresh)
    (text : js_string) : State * list Effect * option Pending :=
  let trimmed := trim text in
  if negb (truthy trimmed) || isLoading render then (st, [], None)
  else
    let pendingMessage :=
      {| id := uuid fresh; role := user; content := trimmed;
         createdAt := now fresh |} in
    let st1 := setMessages (fun prev => prev ++ [pendingMessage]) st in
    let st2 := setInput [] st1 in
    let st3 := setInterimTranscript [] st2 in
    let st4 := setIsLoading true st3 in
    let st5 := setError None st4 in
    let request :=
      {| request_message := trimmed;
         request_history := slice_last 6 (messages render) |} in
    (st5, [fetch_assistant request],
     Some {| pending_request := request;
             pending_autoSpeak := autoSpeak render |}).

(** The call made through a callback of the latest render: what the
    closure holds is the state itself. *)
Definition submitMessage_begin (st : State) (fresh : Fresh) (text : js_string)
    : State * list Effect * option Pending :=
  submitMessage_in st st fresh text.

Definition standby_line : js_string := u16 "I am ready for your next task.".

Section Engine.

(** The message of the [TypeError] the engine throws when [reply] is read
    from [null]. *)
Variable null_reply_error : js_string.

(** The [try] block after the [await], up to the read of [data.reply]: the
    response's data, or what was thrown. *)
Definition response_data (outcome : FetchOutcome) : Thrown + ResponseJson :=
  match outcome with
  | fetch_rejected err => inl err
  | fetch_response st body =>
      if negb (ok st) then
        inl (thrown_Error (u16 "Assistant offline (" ++ decimal st ++ u16 ")"))
      else
        match body with
        | body_rejected err => inl err
        | body_json json_null => inl (thrown_Error null_reply_error)
        | body_json data => inr data
        end
  end.

Definition issue_text (err : Thrown) : js_string :=
  match err with
  | thrown_Error message =>
      u16 "I ran into an issue: " ++ message ++ u16 ". Please try again."
  | thrown_other => u16 "I ran into an issue. Please try again."
  end.

(** [submitMessage] from the point where the [fetch] settles: the rest of
    the [try], the [catch] and the [finally].  [speak] hands the text to the
    synthesizer and returns; it is an effect here, not a source of
    exceptions. *)
Definition submitMessage_settle (pending : Pending) (st : State)
    (fresh : Fresh) (outcome : FetchOutcome) : State * list Effect :=
  let '(st1, effects) :=
    match response_data outcome with
    | inr data =>
        let reply := nullish (json_reply data) standby_line in
        let assistantMessage :=
          {| id := uuid fresh; role := assistant; content := reply;
             createdAt := now fresh |} in
        (setMessages (fun prev => prev ++ [assistantMessage]) st,
         if pending_autoSpeak pending then [speak reply] else [])
    | inl err =>
        let fallbackMessage :=
          {| id := uuid fresh; role := assistant; content := issue_text err;
             createdAt := now fresh |} in
        (setMessages (fun prev => prev ++ [fallbackMessage]) st, [])
    end in
  (setIsLoading false st1, effects).

End Engine.

(** *** Speech recognition *)

(** [{ isFinal, 0?: { transcript? } }]. *)
Record RecognitionEventResult := {
  isFinal : bool;
  alternative0 : option (option js_string)
}.

Record RecognitionEvent := {
  resultIndex : nat;
  results : list RecognitionEventResult
}.

(** [result?.[0]?.transcript ?? ""]. *)
Definition transcript_of (result : RecognitionEventResult) : js_string :=
  match alternative0 result with
  | Some (Some transcript) => transcript
  | _ => []
  end.

(** The loop of [handleResult] over the results from [resultIndex] on; the
    pair is [(interim, finalTranscript)]. *)
Definition scan_results (event : RecognitionEvent) : js_string * js_string :=
  fold_left
    (fun '(interim, finalTranscript) result =>
       if isFinal result
       then (interim, finalTranscript ++ transcript_of result)
       else (interim ++ transcript_of result, finalTranscript))
    (skipn (resultIndex event) (results event))
    ([], []).

Definition handleStart (st : State) : State :=
  setListening true (setInterimTranscript [] (setError None st)).

(** [handleResult], the listener registered by the effect of the render
    [render]: the [submitMessage] it calls is that render's. *)
Definition handleResult_in (render st : State) (fresh : Fresh)
    (event : RecognitionEvent) : State * list Effect * option Pending :=
  let '(interim, finalTranscript) := scan_results event in
  let st1 := setInterimTranscript interim st in
  if truthy (trim finalTranscript) then
    let '(st2, effects, pending) :=
      submitMessage_in render st1 fresh (trim finalTranscript) in
    (st2, call_submitMessage (trim finalTranscript) :: effects, pending)
  else (st1, [], None).


(** The utterances handed to [submitMessage], read off the effects. *)
Definition emitted (effects : list Effect) : list js_string :=
  flat_map (fun e => match e with call_submitMessage text => [text] | _ => [] end)
    effects.

(** The requests to [/api/assistant], read off the effects. *)
Definition requests (effects : list Effect) : list RequestBody :=
  flat_map (fun e => match e with fetch_assistant r => [r] | _ => [] end)
    effects.

Definition handleEnd (st : State) : State := setListening false st.

(** [event.error === "no-speech" ? ... : event.error || "Voice input failed."]. *)
Definition handleError (st : State) (code : js_string) : State :=
  let message :=
    if list_eq_dec N.eq_dec code (u16 "no-speech")
    then u16 "I could not hear you."
    else if truthy code then code else u16 "Voice input failed." in
  setListening false (setError (Some message) st).

End Agent.

(** ** One round trip: the component, the route, the component *)

Module Session.

(** [JSON.stringify({ message, history })] as the route reads it back: of
    each message of the history it uses the role and the content. *)
Definition payload_of (request : Agent.RequestBody) : Route.RequestBody :=
  Route.body_payload
    {| Route.message := Some (Agent.request_message request);
       Route.history :=
         Some (map (fun m => {| Route.role := Agent.role m;
                                Route.content := Agent.content m |})
                 (Agent.request_history request)) |}.

(** The route's response as the component's [fetch] receives it: the
    status, and the body that [response.json()] reads back, [null]
    included. *)
Definition outcome_of (response : Route.HttpResponse) : Agent.FetchOutcome :=
  Agent.fetch_response (Route.status response)
    (Agent.body_json (Route.body response)).

(** A submission served by the route: [submitMessage] from its first line
    to its [finally], called through a callback of the latest render and
    with no other event in between. *)
Definition round_trip (unicode_upper : code_unit -> js_string)
    (null_reply_error : js_string)
    (env : Route.Env) (remote : Route.ChatRequest -> Route.RemoteOutcome)
    (st : Agent.State) (fresh1 fresh2 : Agent.Fresh) (text : js_string)
    : Agent.State * list Agent.Effect :=
  match Agent.submitMessage_begin st fresh1 text with
  | (st1, effects, None) => (st1, effects)
  | (st1, effects, Some pending) =>
      let response :=
        snd (Route.POST unicode_upper env remote
               (payload_of (Agent.pending_request pending))) in
      let (st2, effects') :=
        Agent.submitMessage_settle null_reply_error pending st1 fresh2
          (outcome_of response) in
      (st2, effects ++ effects')
  end.

End Session.

(** ** Names for the handler's responses and for its request *)

(** The answer to a request without a message. *)
Definition message_required : Route.HttpResponse :=
  Route.json (error_object (u16 "Message is required.")) 400.

(** The generator's answer, as the handler sends it. *)
Definition heuristic_response (unicode_upper : code_unit -> js_string)
    (input : js_string) : Route.HttpResponse :=
  Route.json (json_of_response (buildHeuristicResponse unicode_upper input)) 200.

(** The [payload] the handler builds for the completion endpoint from the
    parsed body and the key. *)
Definition chat_request (env : Route.Env) (payload : Route.AssistantPayload)
    (key : js_string) : Route.ChatRequest :=
  {| Route.authorization := u16 "Bearer " ++ key;
     Route.model := Route.OPENAI_MODEL env;
     Route.messages :=
       Route.chat_messages
         (slice_last 6
            (filter (fun entry => truthy (Route.content entry))
               (match Route.history payload with Some h => h | None => [] end)))
         (trim (nullish (Route.message payload) [])) |}.

(** ** Speech output and the recognition switch *)

Module Speech.

(** A [SpeechSynthesisVoice], as far as [speak] looks at it. *)
Record Voice := { lang : js_string; name : js_string }.

(** What [speak] asks of the synthesizer. *)
Inductive SynthCall :=
| cancel
| speak_utterance (text : js_string) (voice : option Voice).

Section Voices.

Variable unicode_upper : code_unit -> js_string.

(** [/english/i.test(voice.lang)]. *)
Definition english (v : Voice) : bool :=
  test_i unicode_upper [u16 "english"] (lang v).

(** [/english/i.test(voice.lang) && /india/i.test(voice.name)]. *)
Definition indian_english (v : Voice) : bool :=
  english v && test_i unicode_upper [u16 "india"] (name v).

(** [find(...) ?? find(...) ?? null] over [speech.getVoices()]. *)
Definition pick_voice (voices : list Voice) : option Voice :=
  match find indian_english voices with
  | Some v => Some v
  | None =>
      match find english voices with
      | Some v => Some v
      | None => None
      end
  end.

(** [speak]; [synth] is [None] when there is no [window.speechSynthesis],
    and the voices it offers otherwise. *)
Definition speak (synth : option (list Voice)) (text : js_string)
    : list SynthCall :=
  match synth with
  | None => []
  | Some voices => [cancel; speak_utterance text (pick_voice voices)]
  end.

End Voices.

(** What [toggleListening] asks of the recognition controller. *)
Inductive RecognitionCall := recognition_start | recognition_stop.

(** [toggleListening]; [supported] says whether [recognitionRef.current] is
    set.  The callback reads the [listening] of the render that created it
    and writes the state as it is. *)
Definition toggleListening (supported : bool) (render st : Agent.State)
    : Agent.State * list RecognitionCall :=
  if negb supported then
    (Agent.setError
       (Some (u16 "Voice recognition is not supported in this browser.")) st,
     [])
  else if Agent.listening render then
    (Agent.setListening false st, [recognition_stop])
  else (st, [recognition_start]).

End Speech.

(** ** The component under a sequence of events *)

Module Runtime.

(** The component between two events.  [ui] is the state, with every
    update made so far applied.  [rendered] is the state of the last
    render: the form and the buttons call the callbacks created in it.
    [listener] is the state of the render whose effect registered the
    recognition listeners that are in place: React runs the effect some
    time after the render, and until then the listeners of the render
    before stay registered.  [in_flight] holds the calls of [submitMessage]
    that are suspended at their [await]. *)
Record System := {
  ui : Agent.State;
  rendered : Agent.State;
  listener : Agent.State;
  in_flight : list Agent.Pending
}.

Definition start : System :=
  {| ui := Agent.initial; rendered := Agent.initial; listener := Agent.initial;
     in_flight := [] |}.

(** What can happen to the component: the user types, submits the form,
    ticks the auto-speak box or presses the listening button; the
    recognition source reports; the [fetch] of a suspended call settles;
    React renders the component again; React runs the effects of the last
    render. *)
Inductive Event :=
| input_changed (value : js_string)
| form_submitted (fresh : Agent.Fresh)
| autoSpeak_changed (checked : bool)
| listening_toggled (supported : bool)
| recognition_started
| recognition_result (event : Agent.RecognitionEvent) (fresh : Agent.Fresh)
| recognition_ended
| recognition_failed (code : js_string)
| fetch_settled (which : nat) (outcome : Agent.FetchOutcome) (fresh : Agent.Fresh)
| rendered_again
| effects_ran.

Definition suspend (pending : option Agent.Pending) (calls : list Agent.Pending)
    : list Agent.Pending :=
  match pending with
  | Some p => calls ++ [p]
  | None => calls
  end.

(** All but the element at [which]. *)
Definition resume {A : Type} (which : nat) (calls : list A) : list A :=
  firstn which calls ++ skipn (S which) calls.

(** The state after a handler has run: what was rendered and what is
    registered stay as they are. *)
Definition update (sys : System) (st : Agent.State)
    (calls : list Agent.Pending) : System :=
  {| ui := st; rendered := rendered sys; listener := listener sys;
     in_flight := calls |}.

Section Engine.

Variable null_reply_error : js_string.

Definition step (sys : System) (event : Event) : System * list Agent.Effect :=
  match event with
  | input_changed value =>
      (update sys (Agent.setInput value (ui sys)) (in_flight sys), [])
  | form_submitted fresh =>
      (* onSubmit: submitMessage(input), both of the last render *)
      let '(st, effects, pending) :=
        Agent.submitMessage_in (rendered sys) (ui sys) fresh
          (Agent.input (rendered sys)) in
      (update sys st (suspend pending (in_flight sys)), effects)
  | autoSpeak_changed checked =>
      (update sys (Agent.setAutoSpeak checked (ui sys)) (in_flight sys), [])
  | listening_toggled supported =>
      (update sys
         (fst (Speech.toggleListening supported (rendered sys) (ui sys)))
         (in_flight sys), [])
  | recognition_started =>
      (update sys (Agent.handleStart (ui sys)) (in_flight sys), [])
  | recognition_result event fresh =>
      let '(st, effects, pending) :=
        Agent.handleResult_in (listener sys) (ui sys) fresh event in
      (update sys st (suspend pending (in_flight sys)), effects)
  | recognition_ended =>
      (update sys (Agent.handleEnd (ui sys)) (in_flight sys), [])
  | recognition_failed code =>
      (update sys (Agent.handleError (ui sys) code) (in_flight sys), [])
  | fetch_settled which outcome fresh =>
      match nth_error (in_flight sys) which with
      | None => (sys, [])
      | Some pending =>
          let (st, effects) :=
            Agent.submitMessage_settle null_reply_error pending (ui sys) fresh
              outcome in
          (update sys st (resume which (in_flight sys)), effects)
      end
  | rendered_again =>
      (* the effects of the render before are run first *)
      ({| ui := ui sys; rendered := ui sys; listener := rendered sys;
          in_flight := in_flight sys |}, [])
  | effects_ran =>
      ({| ui := ui sys; rendered := rendered sys; listener := rendered sys;
          in_flight := in_flight sys |}, [])
  end.

(** The events one after the other, with everything the component did. *)
Fixpoint run (sys : System) (events : list Event) : System * list Agent.Effect :=
  match events with
  | [] => (sys, [])
  | event :: rest =>
      let (sys1, effects) := step sys event in
      let (sys2, effects') := run sys1 rest in
      (sys2, effects ++ effects')
  end.

End Engine.

(** A schedule in which React renders and runs the effects after every
    event, so that each callback that runs was created in the latest
    render. *)
Definition rendered_each_time (events : list Event) : list Event :=
  flat_map (fun event => [event; rendered_again; effects_ran]) events.

Definition role_eqb (a b : Role) : bool :=
  match a, b with
  | user, user | assistant, assistant => true
  | _, _ => false
  end.

Definition other (r : Role) : Role :=
  match r with user => assistant | assistant => user end.

(** The roles of a history take turns, beginning with [first]. *)
Fixpoint takes_turns (first : Role) (history : list Agent.Message) : bool :=
  match history with
  | [] => true
  | m :: rest => role_eqb (Agent.role m) first && takes_turns (other first) rest
  end.

Definition by_role (r : Role) (history : list Agent.Message)
    : list Agent.Message :=
  filter (fun m => role_eqb (Agent.role m) r) history.

(** The content of a user's utterance is what [trim] leaves of a text,
    and is not empty. *)
Definition trimmed_utterance (m : Agent.Message) : Prop :=
  Agent.role m = user ->
  trim (Agent.content m) = Agent.content m /\ Agent.content m <> [].

(** What holds of the component whatever the schedule: the utterances of
    the user are trimmed, each of them has its reply or a suspended call
    that will append one, and the component shows that it is loading only
    while a call is suspended. *)
Definition invariant (sys : System) : Prop :=
  Forall trimmed_utterance (Agent.messages (ui sys))
  /\ List.length (by_role user (Agent.messages (ui sys)))
     = List.length (by_role assistant (Agent.messages (ui sys)))
       + List.length (in_flight sys)
  /\ (Agent.isLoading (ui sys) = true -> in_flight sys <> []).

(** Round trips are serialized: a call is suspended exactly while the
    component is loading, and never more than one. *)
Definition serialized (sys : System) : Prop :=
  (Agent.isLoading (ui sys) = true /\ exists p, in_flight sys = [p])
  \/ (Agent.isLoading (ui sys) = false /\ in_flight sys = []).

(** What holds in addition when every callback is up to date. *)
Definition up_to_date (sys : System) : Prop :=
  rendered sys = ui sys
  /\ listener sys = ui sys
  /\ serialized sys
  /\ takes_turns user (Agent.messages (ui sys)) = true
  /\ Agent.isLoading (ui sys) = Nat.odd (List.length (Agent.messages (ui sys))).

End Runtime.

(** The number of user utterances in the history. *)
Definition users (sys : Runtime.System) : nat :=
  List.length (Runtime.by_role user (Agent.messages (Runtime.ui sys))).

(** ** The task board *)

Module Board.

Inductive TaskStatus := pending | active | done.

Record Task := {
  id : js_string;
  title : js_string;
  details : js_string;
  marketplaceFocus : option js_string;
  status : TaskStatus;
  due : option js_string
}.

(** The form's draft: four strings. *)
Record Draft := {
  draft_title : js_string;
  draft_details : js_string;
  draft_marketplaceFocus : js_string;
  draft_due : js_string
}.

Definition empty_draft : Draft :=
  {| draft_title := []; draft_details := []; draft_marketplaceFocus := [];
     draft_due := [] |}.

(** A [Record<string, string>]: keys in the order of their first
    assignment. *)
Definition Dict := list (js_string * js_string).

Definition js_eqb (a b : js_string) : bool :=
  if list_eq_dec N.eq_dec a b then true else false.

(** [dict[key] = value]. *)
Fixpoint assign (key value : js_string) (dict : Dict) : Dict :=
  match dict with
  | [] => [(key, value)]
  | (k, v) :: rest =>
      if js_eqb k key then (k, value) :: rest
      else (k, v) :: assign key value rest
  end.

Fixpoint lookup (key : js_string) (dict : Dict) : option js_string :=
  match dict with
  | [] => None
  | (k, v) :: rest => if js_eqb k key then Some v else lookup key rest
  end.

Record State := {
  tasks : list Task;
  draft : Draft;
  errors : Dict
}.

Definition initial : State :=
  {| tasks := []; draft := empty_draft; errors := [] |}.

(** The issues [taskSchema.safeParse(draft)] reports, as (path, message):
    [title] and [details] are strings with a minimal length, counted in
    code units; the two optional strings always pass. *)
Definition issues (d : Draft) : list (js_string * js_string) :=
  (if Nat.ltb (List.length (draft_title d)) 3
   then [(u16 "title", u16 "Give your task a short name.")] else [])
  ++ (if Nat.ltb (List.length (draft_details d)) 5
      then [(u16 "details", u16 "Describe the outcome you want.")] else []).

Definition addTask (uuid : js_string) (st : State) : State :=
  match issues (draft st) with
  | (_ :: _) as found =>
      let nextErrors :=
        fold_left (fun dict issue => assign (fst issue) (snd issue) dict)
          found [] in
      {| tasks := tasks st; draft := draft st; errors := nextErrors |}
  | [] =>
      let newTask :=
        {| id := uuid; status := pending;
           title := draft_title (draft st);
           details := draft_details (draft st);
           marketplaceFocus := Some (draft_marketplaceFocus (draft st));
           due := Some (draft_due (draft st)) |} in
      {| tasks := newTask :: tasks st; draft := empty_draft; errors := [] |}
  end.

Definition with_status (s : TaskStatus) (task : Task) : Task :=
  {| id := id task; title := title task; details := details task;
     marketplaceFocus := marketplaceFocus task; status := s; due := due task |}.

Definition updateStatus (target : js_string) (s : TaskStatus) (st : State)
    : State :=
  {| tasks :=
       map (fun task => if js_eqb (id task) target then with_status s task
                        else task)
         (tasks st);
     draft := draft st; errors := errors st |}.

Definition removeTask (target : js_string) (st : State) : State :=
  {| tasks := filter (fun task => negb (js_eqb (id task) target)) (tasks st);
     draft := draft st; errors := errors st |}.

(** The four [onChange] handlers of the form. *)
Definition setTitle (v : js_string) (st : State) : State :=
  {| tasks := tasks st; errors := errors st;
     draft := {| draft_title := v; draft_details := draft_details (draft st);
                 draft_marketplaceFocus := draft_marketplaceFocus (draft st);
                 draft_due := draft_due (draft st) |} |}.

Definition setDetails (v : js_string) (st : State) : State :=
  {| tasks := tasks st; errors := errors st;
     draft := {| draft_title := draft_title (draft st); draft_details := v;
                 draft_marketplaceFocus := draft_marketplaceFocus (draft st);
                 draft_due := draft_due (draft st) |} |}.

Definition setMarketplaceFocus (v : js_string) (st : State) : State :=
  {| tasks := tasks st; errors := errors st;
     draft := {| draft_title := draft_title (draft st);
                 draft_details := draft_details (draft st);
                 draft_marketplaceFocus := v;
                 draft_due := draft_due (draft st) |} |}.

Definition setDue (v : js_string) (st : State) : State :=
  {| tasks := tasks st; errors := errors st;
     draft := {| draft_title := draft_title (draft st);
                 draft_details := draft_details (draft st);
                 draft_marketplaceFocus := draft_marketplaceFocus (draft st);
                 draft_due := v |} |}.

(** What the user can do on the board; [form_submitted] carries what
    [crypto.randomUUID()] returns if the task is added. *)
Inductive Action :=
| title_changed (value : js_string)
| details_changed (value : js_string)
| marketplaceFocus_changed (value : js_string)
| due_changed (value : js_string)
| form_submitted (uuid : js_string)
| status_clicked (target : js_string) (s : TaskStatus)
| remove_clicked (target : js_string).

Definition act (st : State) (a : Action) : State :=
  match a with
  | title_changed v => setTitle v st
  | details_changed v => setDetails v st
  | marketplaceFocus_changed v => setMarketplaceFocus v st
  | due_changed v => setDue v st
  | form_submitted uuid => addTask uuid st
  | status_clicked target s => updateStatus target s st
  | remove_clicked target => removeTask target st
  end.

Fixpoint run (st : State) (actions : list Action) : State :=
  match actions with
  | [] => st
  | a :: rest => run (act st a) rest
  end.

(** The identifiers drawn for the submissions among the actions. *)
Definition uuids (actions : list Action) : list js_string :=
  flat_map (fun a => match a with form_submitted uuid => [uuid] | _ => [] end)
    actions.

(** [automationPlaybook]: the alternatives of each pattern, and the
    recommendation. *)
Definition automationPlaybook : list (list js_string * js_string) :=
  [([u16 "catalog"; u16 "listing"],
    u16 "Extract missing attributes from supplier sheets.");
   ([u16 "pricing"; u16 "price"],
    u16 "Match price to competitor average before publishing.");
   ([u16 "image"; u16 "photo"],
    u16 "Check creative resolution is above 1500px for zoom.");
   ([u16 "keyword"],
    u16 "Generate 5 long-tail keywords for search ranking.");
   ([u16 "prime day"; u16 "sale"],
    u16 "Schedule stock check and ad boosts 48h before sale.")].

Definition default_suggestions : list js_string :=
  [u16 "Sync today's top 3 catalog issues across Amazon, Flipkart, Meesho, and Myntra.";
   u16 "Ask Jarvis to generate bullet copy variations for your hero SKU.";
   u16 "Upload a fresh supplier feed in the Catalog Assistant to map attributes."].

Section Suggestions.

Variable unicode_upper : code_unit -> js_string.

(** The entries one task contributes, in the order of the playbook. *)
Definition derived_for (task : Task) : list js_string :=
  flat_map
    (fun play =>
       if test_i unicode_upper (fst play) (title task)
          || test_i unicode_upper (fst play) (details task)
       then [title task ++ u16 ": " ++ snd play]
       else [])
    automationPlaybook.

Definition suggestions (board : list Task) : list js_string :=
  match board with
  | [] => default_suggestions
  | _ :: _ => firstn 4 (flat_map derived_for board)
  end.

End Suggestions.

End Board.

(** What the form's schema asks of a task: a title of at least three code
    units and details of at least five. *)
Definition valid_task (t : Board.Task) : Prop :=
  3 <= List.length (Board.title t) /\ 5 <= List.length (Board.details t).

(** ** The vocabulary of the specification and the blocks written out *)

(** The words the specification gives for the two intents (its section on
    the generator): task/plan/schedule/reminder/priority/deadline and
    catalog/listing/sheet/spreadsheet/SKU/product.  They are not the
    alternatives of the source's expressions, which are [task_words] and
    [catalog_words]. *)
Definition spec_task_vocabulary : list js_string :=
  [u16 "task"; u16 "plan"; u16 "schedule"; u16 "reminder"; u16 "priority";
   u16 "deadline"].

Definition spec_catalog_vocabulary : list js_string :=
  [u16 "catalog"; u16 "listing"; u16 "sheet"; u16 "spreadsheet"; u16 "SKU";
   u16 "product"].

(** The three blocks as the text of a reply, code unit by code unit: the
    lines of the source's literals with a line feed (10) between them.
    The channel list of the catalog heading is the argument. *)
Definition task_block_text : js_string :=
  [0xD83D; 0xDDC2; 0xFE0F]%N ++ u16 " Daily Ops Blueprint:" ++ [10%N]
  ++ u16 "- Prioritise based on impact " ++ [0x2192%N]
  ++ u16 " revenue, compliance, customer experience." ++ [10%N]
  ++ u16 "- Break work into 90-minute focus blocks with clear Done Definitions."
  ++ [10%N]
  ++ u16 "- Reserve the final block for QA checks and reporting back to leadership.".

Definition catalog_block_text (channels : js_string) : js_string :=
  [0xD83D; 0xDED2]%N ++ u16 " " ++ channels ++ u16 " Listing Automation:"
  ++ [10%N]
  ++ u16 "- Clean your master sheet: ensure SKU, Title, MRP, Offer Price, Color, Size, Fabric, and Image URLs are present."
  ++ [10%N]
  ++ u16 "- Use the Catalog Automation Lab panel " ++ [0x2192%N]
  ++ u16 " upload the latest supplier file, then generate marketplace CSVs."
  ++ [10%N]
  ++ u16 "- Enrich copy automatically: include 3 USP bullet points, search keywords, and compliance notes for GST/Legal.".

Definition ready_block_text : js_string :=
  [0xD83E; 0xDD16]%N ++ u16 " Jarvis Ready:" ++ [10%N]
  ++ u16 "- Share a task, question, or catalog sheet" ++ [0x2014%N]
  ++ u16 "I will prep the steps, automations, and documents you need.".

(** ** Inputs used in the examples *)

(** Two texts without a word of the specification's task vocabulary; the
    first names two marketplaces, the second nothing of the catalog. *)
Definition stock_today_input : js_string :=
  u16 "Sync Amazon and Flipkart stock today".

Definition wear_today_input : js_string := u16 "What should I wear today?".

(** The first suggestion the component shows in its empty transcript. *)
Definition prime_day_input : js_string :=
  u16 "Plan my Amazon Prime Day listings".

(** The second one. *)
Definition critical_tasks_input : js_string :=
  u16 "What are my critical tasks today?".

(** An environment with a key, and an endpoint that answers every request
    with HTTP 500. *)
Definition keyed_env : Route.Env :=
  {| Route.env_OPENAI_API_KEY := Some (u16 "sk-test");
     Route.env_OPENAI_MODEL := None |}.

Definition failing_remote (_ : Route.ChatRequest) : Route.RemoteOutcome :=
  Route.remote_response 500 Route.body_unreadable.

Definition sample_fresh : Agent.Fresh :=
  {| Agent.uuid := u16 "00000000-0000-4000-8000-000000000000";
     Agent.now := 1700000000000%N |}.

(** What [crypto.randomUUID()] and [Date.now()] return a little later. *)
Definition later_fresh : Agent.Fresh :=
  {| Agent.uuid := u16 "11111111-1111-4111-8111-111111111111";
     Agent.now := 1700000000500%N |}.

(** The message of V8's [TypeError] for [data.reply] on [null]. *)
Definition v8_null_reply_error : js_string :=
  u16 "Cannot read properties of null (reading 'reply')".

(** A result event with one interim and one final segment. *)
Definition hello_event : Agent.RecognitionEvent :=
  {| Agent.resultIndex := 0;
     Agent.results :=
       [{| Agent.isFinal := false;
           Agent.alternative0 := Some (Some (u16 "list my")) |};
        {| Agent.isFinal := true;
           Agent.alternative0 := Some (Some (u16 " hello Jarvis ")) |}] |}.

(** The state after the second suggestion has been submitted from the
    initial state: its round trip is awaiting the response. *)
Definition awaiting_state : Agent.State :=
  fst (fst (Agent.submitMessage_begin Agent.initial sample_fresh
              critical_tasks_input)).

(** The second suggestion is typed and sent; React renders and runs the
    effects, so that every callback is up to date; the user switches the
    microphone on and React renders and runs the effects again. *)
Definition awaiting_with_microphone : list Runtime.Event :=
  [Runtime.input_changed critical_tasks_input;
   Runtime.rendered_again;
   Runtime.form_submitted sample_fresh;
   Runtime.rendered_again;
   Runtime.effects_ran;
   Runtime.listening_toggled true;
   Runtime.recognition_started;
   Runtime.rendered_again;
   Runtime.effects_ran].

(** Then a result with an interim and a final segment arrives, while the
    round trip is still awaiting its response. *)
Definition result_while_awaiting : list Runtime.Event :=
  awaiting_with_microphone
  ++ [Runtime.recognition_result hello_event later_fresh].






(** A response with a reply. *)
Definition hello_data : ResponseJson :=
  json_object
    {| field_reply := Some (u16 "Hello."); field_summary := None;
       field_followUps := None; field_error := None |}.

(** The second suggestion is typed and sent with auto-speak enabled; the
    user unticks the box while the round trip is awaiting its response;
    the response arrives with the reply. *)
Definition unticked_while_awaiting : list Runtime.Event :=
  [Runtime.input_changed critical_tasks_input;
   Runtime.rendered_again;
   Runtime.form_submitted sample_fresh;
   Runtime.rendered_again;
   Runtime.effects_ran;
   Runtime.autoSpeak_changed false;
   Runtime.rendered_again;
   Runtime.effects_ran;
   Runtime.fetch_settled 0
     (Agent.fetch_response 200 (Agent.body_json hello_data)) later_fresh].

(** A response whose [reply] is the empty string, and a suspended call to
    settle with it. *)
Definition empty_reply_data : ResponseJson :=
  json_object
    {| field_reply := Some []; field_summary := None; field_followUps := None;
       field_error := None |}.

(** An endpoint whose answer parses to [null]. *)
Definition null_remote (_ : Route.ChatRequest) : Route.RemoteOutcome :=
  Route.remote_response 200 (Route.content_parsed json_null).

(** An endpoint whose answer parses to that object. *)
Definition empty_reply_remote (_ : Route.ChatRequest) : Route.RemoteOutcome :=
  Route.remote_response 200 (Route.content_parsed empty_reply_data).

Definition sample_pending : Agent.Pending :=
  {| Agent.pending_request :=
       {| Agent.request_message := critical_tasks_input;
          Agent.request_history := [] |};
     Agent.pending_autoSpeak := true |}.

(** A history of four completed round trips, and the state that holds
    it. *)
Definition utterance (r : Role) (text : js_string) : Agent.Message :=
  {| Agent.id := u16 "id-" ++ text; Agent.role := r;
     Agent.content := text; Agent.createdAt := Agent.now sample_fresh |}.

Definition eight_utterances : list Agent.Message :=
  [utterance user (u16 "one"); utterance assistant (u16 "two");
   utterance user (u16 "three"); utterance assistant (u16 "four");
   utterance user (u16 "five"); utterance assistant (u16 "six");
   utterance user (u16 "seven"); utterance assistant (u16 "eight")].

Definition chatty_state : Agent.State :=
  Agent.setMessages (fun _ => eight_utterances) Agent.initial.

(** A conversation of nine entries, two of them without content. *)
Definition long_history : list Route.ClientMessage :=
  [{| Route.role := user; Route.content := u16 "one" |};
   {| Route.role := assistant; Route.content := [] |};
   {| Route.role := user; Route.content := u16 "two" |};
   {| Route.role := assistant; Route.content := u16 "three" |};
   {| Route.role := user; Route.content := u16 "four" |};
   {| Route.role := assistant; Route.content := u16 "five" |};
   {| Route.role := user; Route.content := [] |};
   {| Route.role := assistant; Route.content := u16 "six" |};
   {| Route.role := user; Route.content := u16 "seven" |}].

Definition long_payload : Route.AssistantPayload :=
  {| Route.message := Some critical_tasks_input;
     Route.history := Some long_history |}.

(** An environment without a key. *)
Definition keyless_env : Route.Env :=
  {| Route.env_OPENAI_API_KEY := None; Route.env_OPENAI_MODEL := None |}.

(** Typing a padded text and submitting the form. *)
Definition typed_and_sent : list Runtime.Event :=
  [Runtime.input_changed (u16 "  list my tasks  ");
   Runtime.rendered_again;
   Runtime.form_submitted sample_fresh].

(** A draft that passes validation, one that does not, and a board with
    one task. *)
Definition festive_draft : Board.Draft :=
  {| Board.draft_title := u16 "Launch festive bundles on Amazon";
     Board.draft_details := u16 "Refresh the listing images and pricing";
     Board.draft_marketplaceFocus := u16 "Amazon";
     Board.draft_due := u16 "2025-10-20" |}.

Definition short_draft : Board.Draft :=
  {| Board.draft_title := u16 "Go";
     Board.draft_details := u16 "Refresh the listing images and pricing";
     Board.draft_marketplaceFocus := [];
     Board.draft_due := [] |}.

Definition festive_board : Board.State :=
  Board.addTask (u16 "task-1")
    {| Board.tasks := []; Board.draft := festive_draft; Board.errors := [] |}.

(** * Properties *)

(** ** Regular expressions with the [i] flag *)

Section RegExpFacts.

Variable unicode_upper : code_unit -> js_string.

Lemma ascii_upper_ascii (c : code_unit) :
  (c < 128)%N -> (ascii_upper c < 128)%N.
Proof.
  intros Hc. unfold ascii_upper. destruct (is_ascii_lower c); lia.
Qed.

Lemma ascii_upper_nonascii (c : code_unit) :
  (128 <= c)%N -> ascii_upper c = c.
Proof.
  intros Hc. unfold ascii_upper, is_ascii_lower.
  destruct (N.leb_spec c 122); [lia|].
  now rewrite andb_false_r.
Qed.

Lemma canonicalize_ascii (c : code_unit) :
  (c < 128)%N -> canonicalize unicode_upper c = ascii_upper c.
Proof.
  intros Hc. unfold canonicalize, toUpperCase_unit.
  destruct (N.ltb_spec c 128); [|lia].
  destruct (N.leb_spec 128 c); [lia|reflexivity].
Qed.

Lemma canonicalize_nonascii (c : code_unit) :
  (128 <= c)%N -> (128 <= canonicalize unicode_upper c)%N.
Proof.
  intros Hc. unfold canonicalize, toUpperCase_unit.
  destruct (N.ltb_spec c 128); [lia|].
  destruct (is_surrogate c).
  - destruct (N.leb_spec 128 c); [|lia]. simpl.
    destruct (N.ltb_spec c 128); [lia|assumption].
  - destruct (unicode_upper c) as [|cu [|? ?]]; try assumption.
    destruct (N.leb_spec 128 c); [|lia]. simpl.
    destruct (N.ltb_spec cu 128); assumption.
Qed.

(** Against an ASCII pattern character the comparison of canonical forms is
    the comparison up to ASCII case, whatever the case table says. *)
Lemma canonicalize_eqb (p c : code_unit) :
  (p < 128)%N ->
  (canonicalize unicode_upper p =? canonicalize unicode_upper c)%N
  = (ascii_upper p =? ascii_upper c)%N.
Proof.
  intros Hp. rewrite (canonicalize_ascii p Hp).
  destruct (N.ltb_spec c 128) as [Hc|Hc].
  - now rewrite (canonicalize_ascii c Hc).
  - pose proof (canonicalize_nonascii c Hc) as Hge.
    pose proof (ascii_upper_ascii p Hp) as Hlt.
    rewrite (ascii_upper_nonascii c Hc).
    transitivity false; [|symmetry]; apply N.eqb_neq; lia.
Qed.

Lemma match_here_ascii (word s : js_string) :
  is_ascii_word word = true ->
  match_here unicode_upper word s = starts_with_ci word s.
Proof.
  revert s. induction word as [|p word IH]; intros s Hw; [now destruct s|].
  simpl in Hw. apply andb_prop in Hw as [Hp Hw]. apply N.ltb_lt in Hp.
  destruct s as [|c s]; [reflexivity|].
  simpl. now rewrite canonicalize_eqb, IH.
Qed.

Lemma existsb_orb {A : Type} (f g : A -> bool) (l : list A) :
  existsb (fun a => f a || g a) l = existsb f l || existsb g l.
Proof.
  induction l as [|a l IH]; [reflexivity|].
  simpl. rewrite IH. destruct (f a), (g a), (existsb f l); reflexivity.
Qed.

Lemma existsb_pointwise {A : Type} (f g : A -> bool) (l : list A) :
  (forall a, f a = g a) -> existsb f l = existsb g l.
Proof.
  intros Hfg. induction l as [|a l IH]; [reflexivity|].
  simpl. now rewrite Hfg, IH.
Qed.

Lemma test_i_ascii (alternatives : list js_string) (s : js_string) :
  forallb is_ascii_word alternatives = true ->
  test_i unicode_upper alternatives s
  = existsb (fun word => includes_ci word s) alternatives.
Proof.
  intros Ha.
  assert (Hhere : forall t,
    existsb (fun pat => match_here unicode_upper pat t) alternatives
    = existsb (fun word => starts_with_ci word t) alternatives).
  { intros t. induction alternatives as [|w ws IH]; [reflexivity|].
    simpl in Ha. apply andb_prop in Ha as [Hw Hws].
    simpl. now rewrite match_here_ascii, IH. }
  induction s as [|c s IH].
  - simpl. rewrite Hhere, orb_false_r.
    apply existsb_pointwise. intros w. now rewrite orb_false_r.
  - cbn [test_i]. rewrite IH, Hhere, <- existsb_orb.
    apply existsb_pointwise. intros w. reflexivity.
Qed.

End RegExpFacts.

(** ** Substrings *)

Lemma starts_with_ci_spec (word s : js_string) :
  starts_with_ci word s = true <->
  exists m post, s = m ++ post /\ map ascii_upper m = map ascii_upper word.
Proof.
  revert s. induction word as [|p word IH]; intros s.
  - split; [|reflexivity]. intros _. now exists [], s.
  - destruct s as [|c s]; simpl.
    + split; [discriminate|].
      intros (m & post & Hs & Hm). destruct m; discriminate.
    + rewrite andb_true_iff, N.eqb_eq, IH. split.
      * intros (Hpc & m & post & -> & Hm).
        exists (c :: m), post. simpl. now rewrite Hm, Hpc.
      * intros (m & post & Hs & Hm).
        destruct m as [|c' m]; [discriminate|].
        simpl in Hs, Hm. injection Hs as -> ->. injection Hm as Hc Hm.
        split; [congruence|]. now exists m, post.
Qed.

Lemma includes_ci_spec (word s : js_string) :
  includes_ci word s = true <-> contains_ci word s.
Proof.
  unfold contains_ci. induction s as [|c s IH].
  - simpl. rewrite orb_false_r, starts_with_ci_spec. split.
    + intros (m & post & Hs & Hm). now exists [], m, post.
    + intros (pre & m & post & Hs & Hm).
      destruct pre; [|discriminate]. now exists m, post.
  - cbn [includes_ci]. rewrite orb_true_iff, IH, starts_with_ci_spec. split.
    + intros [(m & post & Hs & Hm) | (pre & m & post & Hs & Hm)].
      * now exists [], m, post.
      * exists (c :: pre), m, post. now rewrite Hs.
    + intros (pre & m & post & Hs & Hm). destruct pre as [|c' pre].
      * left. now exists m, post.
      * right. injection Hs as -> ->. now exists pre, m, post.
Qed.

Lemma startsWith_spec (needle s : js_string) :
  startsWith needle s = true <-> exists post, s = needle ++ post.
Proof.
  revert s. induction needle as [|p needle IH]; intros s.
  - split; [|reflexivity]. intros _. now exists s.
  - destruct s as [|c s]; simpl.
    + split; [discriminate|]. intros (post & Hs). discriminate.
    + rewrite andb_true_iff, N.eqb_eq, IH. split.
      * intros (-> & post & ->). now exists post.
      * intros (post & Hs). injection Hs as -> ->. split; [reflexivity|].
        now exists post.
Qed.

Lemma includes_spec (needle s : js_string) :
  includes needle s = true <-> substring needle s.
Proof.
  unfold substring. induction s as [|c s IH].
  - simpl. rewrite orb_false_r, startsWith_spec. split.
    + intros (post & Hs). now exists [], post.
    + intros (pre & post & Hs). destruct pre; [|discriminate]. now exists post.
  - cbn [includes]. rewrite orb_true_iff, IH, startsWith_spec. split.
    + intros [(post & Hs) | (pre & post & Hs)].
      * now exists [], post.
      * exists (c :: pre), post. now rewrite Hs.
    + intros (pre & post & Hs). destruct pre as [|c' pre].
      * left. now exists post.
      * right. injection Hs as -> ->. now exists pre, post.
Qed.

(** What a [test] of the source decides: for ASCII words, that one of them
    occurs in the text up to ASCII case. *)
Lemma test_i_spec (unicode_upper : code_unit -> js_string)
    (alternatives : list js_string) (s : js_string) :
  forallb is_ascii_word alternatives = true ->
  test_i unicode_upper alternatives s = true <->
  exists word, In word alternatives /\ contains_ci word s.
Proof.
  intros Ha. rewrite (test_i_ascii unicode_upper _ s Ha), existsb_exists.
  split; intros (w & Hin & Hw); exists w; split; trivial;
    now apply includes_ci_spec.
Qed.

Lemma test_i_false (unicode_upper : code_unit -> js_string)
    (alternatives : list js_string) (s : js_string) :
  forallb is_ascii_word alternatives = true ->
  (forall word, In word alternatives -> ~ contains_ci word s) ->
  test_i unicode_upper alternatives s = false.
Proof.
  intros Ha Hno. apply not_true_is_false. intros Ht.
  apply (test_i_spec unicode_upper _ s Ha) in Ht as (w & Hin & Hw).
  exact (Hno w Hin Hw).
Qed.

Lemma test_i_word (unicode_upper : code_unit -> js_string) (word s : js_string) :
  is_ascii_word word = true ->
  test_i unicode_upper [word] s = true <-> contains_ci word s.
Proof.
  intros Hw. rewrite test_i_spec by (simpl; now rewrite Hw). split.
  - intros (w & [<- | []] & H). exact H.
  - intros H. exists word. split; [now left | exact H].
Qed.

(** ** [trim] and [sentenceCase] *)

Lemma trimEnd_snoc (s : js_string) (c : code_unit) :
  is_whitespace c = false -> trimEnd (s ++ [c]) = s ++ [c].
Proof.
  intros Hc. unfold trimEnd. rewrite rev_app_distr. simpl. rewrite Hc.
  simpl. now rewrite rev_involutive.
Qed.

Lemma trim_settled (c d : code_unit) (s : js_string) :
  is_whitespace c = false -> is_whitespace d = false ->
  trim ((c :: s) ++ [d]) = (c :: s) ++ [d].
Proof.
  intros Hc Hd. unfold trim. simpl trimStart. rewrite Hc.
  exact (trimEnd_snoc (c :: s) d Hd).
Qed.

Lemma trimStart_head (s t : js_string) (c : code_unit) :
  trimStart s = c :: t -> is_whitespace c = false.
Proof.
  induction s as [|a s IH]; simpl; [discriminate|].
  destruct (is_whitespace a) eqn:Ha; [exact IH|].
  intros H. injection H as <- _. exact Ha.
Qed.

Lemma trimStart_nil (s : js_string) :
  trimStart s = [] <-> forallb is_whitespace s = true.
Proof.
  induction s as [|c s IH]; simpl; [tauto|].
  destruct (is_whitespace c); simpl; [exact IH|]. split; discriminate.
Qed.

(** [trim] yields the empty string exactly on the strings made of white
    space only. *)
Lemma trim_nil (s : js_string) :
  trim s = [] <-> forallb is_whitespace s = true.
Proof.
  rewrite <- trimStart_nil. unfold trim, trimEnd. split.
  - intros H. destruct (trimStart s) as [|c t] eqn:E; [reflexivity|].
    exfalso. apply trimStart_head in E.
    apply (f_equal (@rev code_unit)) in H. rewrite rev_involutive in H.
    simpl (rev []) in H. apply trimStart_nil in H.
    rewrite forallb_forall in H.
    specialize (H c). rewrite <- in_rev in H.
    specialize (H (or_introl eq_refl)). congruence.
  - intros ->. reflexivity.
Qed.

Section SentenceCase.

Variable unicode_upper : code_unit -> js_string.

Lemma toUpperCase_unit_fixed (c : code_unit) :
  fixed_case c = true -> toUpperCase_unit unicode_upper c = [c].
Proof.
  unfold fixed_case, toUpperCase_unit, ascii_upper.
  destruct (c <? 128)%N.
  - destruct (is_ascii_lower c); [discriminate|reflexivity].
  - now intros ->.
Qed.

Lemma sentenceCase_settled (line : js_string) :
  settled_line line = true -> sentenceCase unicode_upper line = line.
Proof.
  destruct line as [|c s]; [reflexivity|].
  intros H. unfold settled_line in H.
  apply andb_prop in H as [H Hlast]. apply andb_prop in H as [Hc Hfixed].
  apply negb_true_iff in Hc, Hlast.
  unfold sentenceCase. cbn [truthy negb].
  assert (Htrim : trim (c :: s) = c :: s).
  { destruct (@exists_last _ (c :: s)) as (front & d & E); [discriminate|].
    rewrite E in Hlast |- *. rewrite last_last in Hlast.
    destruct front as [|c' front].
    - injection E as -> ->. unfold trim. simpl. rewrite Hc. simpl.
      unfold trimEnd. simpl. now rewrite Hc.
    - injection E as <- _. now apply trim_settled. }
  rewrite Htrim. now rewrite toUpperCase_unit_fixed.
Qed.

Lemma map_sentenceCase_settled (lines : list js_string) :
  forallb settled_line lines = true ->
  map (sentenceCase unicode_upper) lines = lines.
Proof.
  induction lines as [|l lines IH]; [reflexivity|].
  simpl. intros H. apply andb_prop in H as [Hl Hls].
  now rewrite sentenceCase_settled, IH.
Qed.

Lemma settled_catalog_section (plan : js_string) :
  forallb settled_line (catalog_section plan) = true.
Proof.
  unfold catalog_section. cbn [forallb]. apply andb_true_intro. split.
  - unfold settled_line, catalog_heading.
    replace (u16 " Listing Automation:")
      with (u16 " Listing Automation" ++ [58%N]) by reflexivity.
    rewrite !app_assoc, last_last. reflexivity.
  - vm_compute. reflexivity.
Qed.

(** The lines of the three blocks are settled, so the generator's reply is
    its sections joined by line feeds. *)
Lemma sentenceCase_sections (input : js_string) :
  map (sentenceCase unicode_upper) (responseSections unicode_upper input)
  = responseSections unicode_upper input.
Proof.
  apply map_sentenceCase_settled. unfold responseSections.
  rewrite !forallb_app.
  destruct (wantsTasks unicode_upper input),
    (wantsCatalog unicode_upper input); cbn [negb andb];
    rewrite ?settled_catalog_section; reflexivity.
Qed.

End SentenceCase.

(** ** The generator, free of the case table *)

Section GeneratorFacts.

Variable unicode_upper : code_unit -> js_string.

Lemma ascii_marketplaces : forallb is_ascii_word marketplaces = true.
Proof. reflexivity. Qed.

Lemma ascii_catalog_words : forallb is_ascii_word catalog_words = true.
Proof. reflexivity. Qed.

Lemma ascii_task_words : forallb is_ascii_word task_words = true.
Proof. reflexivity. Qed.

Lemma detectedMarketplaces_includes (input : js_string) :
  detectedMarketplaces unicode_upper input
  = filter (fun name => includes_ci name input) marketplaces.
Proof.
  unfold detectedMarketplaces. apply filter_ext_in. intros name Hin.
  rewrite test_i_ascii.
  - simpl. apply orb_false_r.
  - simpl. rewrite andb_true_r.
    pose proof ascii_marketplaces as H. rewrite forallb_forall in H.
    now apply H.
Qed.

Lemma wantsTasks_includes (input : js_string) :
  wantsTasks unicode_upper input
  = existsb (fun word => includes_ci word input) task_words.
Proof. apply test_i_ascii, ascii_task_words. Qed.

Lemma ltb_length_filter {A : Type} (f : A -> bool) (l : list A) :
  Nat.ltb 0 (List.length (filter f l)) = existsb f l.
Proof.
  induction l as [|a l IH]; [reflexivity|].
  simpl. destruct (f a); [reflexivity|exact IH].
Qed.

Lemma wantsCatalog_includes (input : js_string) :
  wantsCatalog unicode_upper input
  = existsb (fun word => includes_ci word input) catalog_words
    || existsb (fun name => includes_ci name input) marketplaces.
Proof.
  unfold wantsCatalog.
  rewrite detectedMarketplaces_includes, ltb_length_filter.
  now rewrite (test_i_ascii _ _ _ ascii_catalog_words).
Qed.

(** [reply] without [sentenceCase]. *)
Lemma reply_sections (input : js_string) :
  reply (buildHeuristicResponse unicode_upper input)
  = join newline (responseSections unicode_upper input).
Proof. simpl. now rewrite sentenceCase_sections. Qed.

End GeneratorFacts.

(** The generator does not depend on the platform's case table. *)
Lemma buildHeuristicResponse_table (up1 up2 : code_unit -> js_string)
    (input : js_string) :
  buildHeuristicResponse up1 input = buildHeuristicResponse up2 input.
Proof.
  assert (Hs : responseSections up1 input = responseSections up2 input).
  { unfold responseSections, channelPlan.
    now rewrite !wantsTasks_includes, !wantsCatalog_includes,
      !detectedMarketplaces_includes. }
  unfold buildHeuristicResponse, heuristic_followUps.
  rewrite !sentenceCase_sections, Hs.
  now rewrite !wantsTasks_includes, !wantsCatalog_includes.
Qed.

(** ** The generator's reply *)

Lemma responseSections_first (up : code_unit -> js_string) (input : js_string) :
  exists c line lines,
    responseSections up input = (c :: line) :: lines.
Proof.
  unfold responseSections.
  destruct (wantsTasks up input), (wantsCatalog up input);
    cbn [negb andb app task_section catalog_section ready_section
         task_heading catalog_heading];
    do 3 eexists; reflexivity.
Qed.

Lemma join_cons_nonempty (sep : js_string) (c : code_unit) (line : js_string)
    (lines : list js_string) :
  join sep ((c :: line) :: lines) <> [].
Proof. destruct lines; simpl; discriminate. Qed.

(** C1. For every input string, the empty one included, the generator
    returns a response (the function is total: it cannot throw) whose
    [reply] is not the empty string. *)
Theorem buildHeuristicResponse_reply_nonempty
    (unicode_upper : code_unit -> js_string) (input : js_string) :
  reply (buildHeuristicResponse unicode_upper input) <> []
  /\ truthy (reply (buildHeuristicResponse unicode_upper [])) = true.
Proof.
  split.
  - rewrite reply_sections.
    destruct (responseSections_first unicode_upper input) as (c & l & ls & ->).
    apply join_cons_nonempty.
  - rewrite reply_sections.
    destruct (responseSections_first unicode_upper []) as (c & l & ls & ->).
    destruct ls; reflexivity.
Qed.

(** ** The worked example of the component's placeholder *)

Lemma prime_day_facts (up : code_unit -> js_string) :
  detectedMarketplaces up prime_day_input = [u16 "Amazon"]
  /\ wantsCatalog up prime_day_input = true
  /\ wantsTasks up prime_day_input = true
  /\ summary (buildHeuristicResponse up prime_day_input) = Some catalog_summary
  /\ followUps (buildHeuristicResponse up prime_day_input)
     = Some (task_followUps ++ catalog_followUps).
Proof.
  rewrite (buildHeuristicResponse_table up latin1_upper).
  rewrite wantsTasks_includes, wantsCatalog_includes,
    detectedMarketplaces_includes.
  repeat split; vm_compute; reflexivity.
Qed.

(** C3, as stated, fails: on "Plan my Amazon Prime Day listings" the task
    expression matches ("Plan" is its alternative [plan] up to case), so
    task intent is not false and the follow-ups are not two. *)
Lemma prime_day_claim_refuted :
  ~ (exists up : code_unit -> js_string,
       detectedMarketplaces up prime_day_input = [u16 "Amazon"]
       /\ wantsCatalog up prime_day_input = true
       /\ wantsTasks up prime_day_input = false
       /\ summary (buildHeuristicResponse up prime_day_input)
          = Some catalog_summary
       /\ exists suggestions,
            followUps (buildHeuristicResponse up prime_day_input)
            = Some suggestions
            /\ List.length suggestions = 2).
Proof.
  intros (up & _ & _ & Htasks & _).
  destruct (prime_day_facts up) as (_ & _ & Htrue & _). congruence.
Qed.

(** The follow-ups alone refute it as well. *)
Lemma prime_day_followUps_length (up : code_unit -> js_string) :
  option_map (@List.length js_string)
    (followUps (buildHeuristicResponse up prime_day_input)) = Some 4.
Proof.
  destruct (prime_day_facts up) as (_ & _ & _ & _ & ->). reflexivity.
Qed.

(** C3, amended. For the input "Plan my Amazon Prime Day listings" the
    generator detects exactly the marketplace Amazon, catalog intent is
    true, task intent is true as well (the word "Plan" matches the task
    vocabulary), the summary is the catalog-automation one, and the
    follow-ups are the two task suggestions followed by the two catalog
    suggestions: four entries. *)
Theorem prime_day_example (unicode_upper : code_unit -> js_string) :
  detectedMarketplaces unicode_upper prime_day_input = [u16 "Amazon"]
  /\ wantsCatalog unicode_upper prime_day_input = true
  /\ wantsTasks unicode_upper prime_day_input = true
  /\ summary (buildHeuristicResponse unicode_upper prime_day_input)
     = Some catalog_summary
  /\ followUps (buildHeuristicResponse unicode_upper prime_day_input)
     = Some (task_followUps ++ catalog_followUps)
  /\ List.length (task_followUps ++ catalog_followUps) = 4.
Proof.
  destruct (prime_day_facts unicode_upper) as (Hd & Hc & Ht & Hs & Hf).
  repeat split; assumption || reflexivity.
Qed.

(** ** Marketplace mentions *)

(** Discharges [forall word, In word ws -> ~ contains_ci word s] on a
    concrete list of words and a concrete text, by running [includes_ci]. *)
Ltac absent_words :=
  let word := fresh "word" in
  let Hin := fresh "Hin" in
  let H := fresh "H" in
  intros word Hin H; apply includes_ci_spec in H;
  repeat (destruct Hin as [<- | Hin]; [vm_compute in H; discriminate|]);
  destruct Hin.

Lemma not_substring (needle s : js_string) :
  includes needle s = false -> ~ substring needle s.
Proof.
  intros Hf Hs. apply includes_spec in Hs. congruence.
Qed.

(** The lists of lines of the source, joined by line feeds, are the
    blocks written out. *)
Lemma task_section_text : join newline task_section = task_block_text.
Proof. reflexivity. Qed.

Lemma catalog_section_text (channels : js_string) :
  join newline (catalog_section channels) = catalog_block_text channels.
Proof.
  unfold catalog_section, catalog_heading, catalog_block_text, newline.
  cbn [join]. now rewrite <- !app_assoc.
Qed.

Lemma ready_section_text : join newline ready_section = ready_block_text.
Proof. reflexivity. Qed.

(** The reply when only the catalog intent is there and marketplaces were
    detected. *)
Lemma catalog_only_reply (up : code_unit -> js_string) (input : js_string) :
  wantsTasks up input = false ->
  detectedMarketplaces up input <> [] ->
  reply (buildHeuristicResponse up input)
  = catalog_block_text (join (u16 ", ") (detectedMarketplaces up input)).
Proof.
  intros Ht Hd. rewrite reply_sections. unfold responseSections, channelPlan.
  assert (Hc : wantsCatalog up input = true).
  { unfold wantsCatalog. destruct (detectedMarketplaces up input);
      [congruence | apply orb_true_r]. }
  rewrite Ht, Hc. cbn [negb andb app]. rewrite app_nil_r.
  rewrite catalog_section_text.
  destruct (detectedMarketplaces up input); [congruence | reflexivity].
Qed.

(** C4, as stated, fails.  "Sync Amazon and Flipkart stock today" contains
    "Amazon" and "Flipkart" and no word of the task vocabulary of the
    specification (task, plan, schedule, reminder, priority, deadline), yet
    the task expression of the source lists [today]: the reply begins with
    the task block, and the catalog block follows it. *)
Lemma stock_today_has_task_block :
  contains_ci (u16 "Amazon") stock_today_input
  /\ contains_ci (u16 "Flipkart") stock_today_input
  /\ (forall word,
        In word spec_task_vocabulary -> ~ contains_ci word stock_today_input)
  /\ wantsTasks latin1_upper stock_today_input = true
  /\ reply (buildHeuristicResponse latin1_upper stock_today_input)
     = task_block_text ++ [10%N] ++ catalog_block_text (u16 "Amazon, Flipkart")
  /\ substring task_block_text
       (reply (buildHeuristicResponse latin1_upper stock_today_input)).
Proof.
  split; [apply includes_ci_spec; vm_compute; reflexivity|].
  split; [apply includes_ci_spec; vm_compute; reflexivity|].
  split; [absent_words|].
  split; [vm_compute; reflexivity|].
  split; [vm_compute; reflexivity|].
  apply includes_spec. vm_compute. reflexivity.
Qed.

(** C4, amended.  When the text contains "Amazon" and "Flipkart" up to case
    and none of the words of the source's task expression (task, plan,
    today, remind, schedule, priority, deadline), the reply is the catalog
    block alone, written out: its heading lists the detected marketplaces,
    which are Amazon and Flipkart followed by Meesho and by Myntra exactly
    when the text mentions them, in the order of the fixed set whatever
    their order in the text and joined by ", ".  Neither the heading of the
    task block nor any of its lines occurs in the reply, nor does the
    default list "Amazon, Flipkart, Meesho, and Myntra". *)
Theorem amazon_flipkart_catalog_block
    (unicode_upper : code_unit -> js_string) (input : js_string) :
  contains_ci (u16 "Amazon") input ->
  contains_ci (u16 "Flipkart") input ->
  (forall word, In word task_words -> ~ contains_ci word input) ->
  exists meesho myntra : bool,
    (meesho = true <-> contains_ci (u16 "Meesho") input)
    /\ (myntra = true <-> contains_ci (u16 "Myntra") input)
    /\ detectedMarketplaces unicode_upper input
       = [u16 "Amazon"; u16 "Flipkart"]
         ++ (if meesho then [u16 "Meesho"] else [])
         ++ (if myntra then [u16 "Myntra"] else [])
    /\ reply (buildHeuristicResponse unicode_upper input)
       = catalog_block_text
           (u16 "Amazon, Flipkart"
            ++ (if meesho then u16 ", Meesho" else [])
            ++ (if myntra then u16 ", Myntra" else []))
    /\ ~ substring (u16 "Daily Ops Blueprint")
           (reply (buildHeuristicResponse unicode_upper input))
    /\ (forall line, In line task_section ->
          ~ substring line
              (reply (buildHeuristicResponse unicode_upper input)))
    /\ ~ substring (u16 "Amazon, Flipkart, Meesho, and Myntra")
           (reply (buildHeuristicResponse unicode_upper input)).
Proof.
  intros Ha Hf Hno.
  apply includes_ci_spec in Ha, Hf.
  exists (includes_ci (u16 "Meesho") input), (includes_ci (u16 "Myntra") input).
  split; [apply includes_ci_spec|]. split; [apply includes_ci_spec|].
  assert (Hd : detectedMarketplaces unicode_upper input
               = [u16 "Amazon"; u16 "Flipkart"]
                 ++ (if includes_ci (u16 "Meesho") input then [u16 "Meesho"] else [])
                 ++ (if includes_ci (u16 "Myntra") input then [u16 "Myntra"] else [])).
  { rewrite detectedMarketplaces_includes. unfold marketplaces.
    cbn [filter]. rewrite Ha, Hf.
    now destruct (includes_ci (u16 "Meesho") input),
      (includes_ci (u16 "Myntra") input). }
  assert (Ht : wantsTasks unicode_upper input = false).
  { apply test_i_false; [exact ascii_task_words | exact Hno]. }
  rewrite (catalog_only_reply unicode_upper input Ht)
    by (rewrite Hd; discriminate).
  rewrite Hd. clear.
  split; [reflexivity|].
  destruct (includes_ci (u16 "Meesho") input),
    (includes_ci (u16 "Myntra") input);
    (split; [reflexivity|];
     split; [apply not_substring; vm_compute; reflexivity|];
     split;
     [ intros line [<- | [<- | [<- | [<- | []]]]];
       apply not_substring; vm_compute; reflexivity
     | apply not_substring; vm_compute; reflexivity ]).
Qed.

(** Such an input: the marketplaces in the opposite order and in another
    case. *)
Lemma amazon_flipkart_catalog_block_witness :
  exists meesho myntra : bool,
    reply (buildHeuristicResponse latin1_upper
             (u16 "sync FLIPKART stock with amazon and myntra"))
    = catalog_block_text
        (u16 "Amazon, Flipkart"
         ++ (if meesho then u16 ", Meesho" else [])
         ++ (if myntra then u16 ", Myntra" else [])).
Proof.
  destruct (amazon_flipkart_catalog_block latin1_upper
              (u16 "sync FLIPKART stock with amazon and myntra"))
    as (meesho & myntra & _ & _ & _ & Hr & _).
  - apply includes_ci_spec. vm_compute. reflexivity.
  - apply includes_ci_spec. vm_compute. reflexivity.
  - absent_words.
  - exists meesho, myntra. exact Hr.
Defined.

(** ** Neither intent *)

(** C7, as stated, fails.  "What should I wear today?" contains no word of
    the catalog vocabulary of the specification, none of its task
    vocabulary and no marketplace name, yet the task expression of the
    source lists [today]: the reply is the task block, not the standby
    block, and the follow-ups are the two task suggestions, not the generic
    ones. *)
Lemma wear_today_is_a_task :
  (forall word,
     In word spec_catalog_vocabulary -> ~ contains_ci word wear_today_input)
  /\ (forall word,
        In word spec_task_vocabulary -> ~ contains_ci word wear_today_input)
  /\ (forall name, In name marketplaces -> ~ contains_ci name wear_today_input)
  /\ reply (buildHeuristicResponse latin1_upper wear_today_input)
     = task_block_text
  /\ reply (buildHeuristicResponse latin1_upper wear_today_input)
     <> ready_block_text
  /\ followUps (buildHeuristicResponse latin1_upper wear_today_input)
     = Some
         [u16 "Should I schedule reminders and sync them to your preferred calendar?";
          u16 "Want me to draft stakeholder updates once each task is closed?"].
Proof.
  split; [absent_words|]. split; [absent_words|]. split; [absent_words|].
  split; [vm_compute; reflexivity|].
  split; [vm_compute; discriminate|].
  vm_compute. reflexivity.
Qed.

(** C7, amended.  When the text contains none of the words of the source's
    catalog expression (catalog, listing, sheet, excel, sku, product), no
    marketplace name and none of the words of its task expression (task,
    plan, today, remind, schedule, priority, deadline), the follow-ups are
    exactly the two generic suggestions and the reply is the standby block
    alone, written out; the summary is the standby one. *)
Theorem neither_intent_standby
    (unicode_upper : code_unit -> js_string) (input : js_string) :
  (forall word, In word catalog_words -> ~ contains_ci word input) ->
  (forall name, In name marketplaces -> ~ contains_ci name input) ->
  (forall word, In word task_words -> ~ contains_ci word input) ->
  followUps (buildHeuristicResponse unicode_upper input)
  = Some
      [u16 "Upload the latest catalog so I can generate ready-to-use marketplace sheets.";
       u16 "Tell me your top priority for today and I will create an execution timeline."]
  /\ reply (buildHeuristicResponse unicode_upper input) = ready_block_text
  /\ summary (buildHeuristicResponse unicode_upper input)
     = Some (u16 "Standing by for instructions.").
Proof.
  intros Hcat Hmkt Htask.
  assert (Ht : wantsTasks unicode_upper input = false).
  { apply test_i_false; [exact ascii_task_words | exact Htask]. }
  assert (Hc : wantsCatalog unicode_upper input = false).
  { rewrite wantsCatalog_includes. apply orb_false_intro.
    - rewrite <- (test_i_ascii unicode_upper _ _ ascii_catalog_words).
      apply test_i_false; [exact ascii_catalog_words | exact Hcat].
    - rewrite <- (test_i_ascii unicode_upper _ _ ascii_marketplaces).
      apply test_i_false; [exact ascii_marketplaces | exact Hmkt]. }
  rewrite reply_sections.
  unfold buildHeuristicResponse, heuristic_followUps, responseSections.
  cbn [followUps summary]. rewrite Ht, Hc.
  repeat split; reflexivity.
Qed.

Lemma neither_intent_standby_witness :
  reply (buildHeuristicResponse latin1_upper (u16 "Good morning, Jarvis"))
  = ready_block_text.
Proof.
  apply (neither_intent_standby latin1_upper (u16 "Good morning, Jarvis")).
  - absent_words.
  - absent_words.
  - absent_words.
Defined.

(** ** The route handler *)

Section RouteFacts.

Variable unicode_upper : code_unit -> js_string.
Variable env : Route.Env.
Variable remote : Route.ChatRequest -> Route.RemoteOutcome.

Lemma truthy_false (s : js_string) : truthy s = false <-> s = [].
Proof. destruct s; simpl; split; congruence. Qed.

Lemma truthy_true (s : js_string) : truthy s = true <-> s <> [].
Proof. destruct s; simpl; split; congruence. Qed.

(** Without a key the handler answers from the generator, applied to the
    trimmed message, and sends nothing. *)
Lemma POST_without_key (payload : Route.AssistantPayload) :
  let incomingMessage := trim (nullish (Route.message payload) []) in
  incomingMessage <> [] ->
  (Route.env_OPENAI_API_KEY env = None
   \/ Route.env_OPENAI_API_KEY env = Some []) ->
  Route.POST unicode_upper env remote (Route.body_payload payload)
  = ([Route.call_heuristic incomingMessage],
     Route.json
       (json_of_response (buildHeuristicResponse unicode_upper incomingMessage))
       200).
Proof.
  intros incomingMessage Hmsg Hkey. apply truthy_true in Hmsg.
  unfold Route.POST, Route.POST_try, Route.request_json, Route.bind, Route.ret.
  fold incomingMessage. rewrite Hmsg. cbn [negb].
  destruct Hkey as [-> | ->]; reflexivity.
Qed.

(** With a key, the one request goes out; when the endpoint answers it
    with a parsed object, that object is the response. *)
Lemma POST_remote_success (payload : Route.AssistantPayload)
    (key : js_string) (parsed : ResponseJson) :
  trim (nullish (Route.message payload) []) <> [] ->
  Route.env_OPENAI_API_KEY env = Some key -> key <> [] ->
  (forall request, exists st,
      remote request = Route.remote_response st (Route.content_parsed parsed)
      /\ ok st = true) ->
  exists request,
    Route.POST unicode_upper env remote (Route.body_payload payload)
    = ([Route.call_remote request], Route.json parsed 200).
Proof.
  intros Hmsg Hkey Hne Hremote. apply truthy_true in Hmsg.
  unfold Route.POST, Route.POST_try, Route.request_json, Route.bind, Route.ret.
  rewrite Hmsg, Hkey. cbn [negb]. destruct key as [|k key]; [congruence|].
  unfold Route.complete.
  match goal with |- context [remote ?r] =>
    exists r; destruct (Hremote r) as (st & -> & ->) end.
  reflexivity.
Qed.

(** With a key and an endpoint that fails, in any of the ways the handler
    tells apart, the [catch] answers with the generator applied to the
    empty string: the message plays no part in the response. *)
Lemma POST_remote_failure (payload : Route.AssistantPayload) (key : js_string) :
  trim (nullish (Route.message payload) []) <> [] ->
  Route.env_OPENAI_API_KEY env = Some key -> key <> [] ->
  (forall request, Route.remote_fails (remote request) = true) ->
  exists request,
    Route.POST unicode_upper env remote (Route.body_payload payload)
    = ([Route.call_remote request; Route.call_heuristic []],
       Route.json (json_of_response (buildHeuristicResponse unicode_upper []))
         200).
Proof.
  intros Hmsg Hkey Hne Hremote. apply truthy_true in Hmsg.
  unfold Route.POST, Route.POST_try, Route.request_json, Route.bind, Route.ret.
  rewrite Hmsg, Hkey. cbn [negb]. destruct key as [|k key]; [congruence|].
  unfold Route.complete.
  match goal with |- context [remote ?r] =>
    exists r; specialize (Hremote r); destruct (remote r) as [|st b] end.
  - reflexivity.
  - destruct b; simpl in Hremote; try rewrite Hremote;
      destruct (negb (ok st)); try discriminate; reflexivity.
Qed.

(** A body that is not JSON ends in the same [catch]. *)
Lemma POST_body_invalid :
  Route.POST unicode_upper env remote Route.body_invalid
  = ([Route.call_heuristic []],
     Route.json (json_of_response (buildHeuristicResponse unicode_upper []))
       200).
Proof. reflexivity. Qed.

(** So does the body [null], on which [body.message] throws. *)
Lemma POST_body_null :
  Route.POST unicode_upper env remote Route.body_null
  = ([Route.call_heuristic []],
     Route.json (json_of_response (buildHeuristicResponse unicode_upper []))
       200).
Proof. reflexivity. Qed.

(** The generator's reply to the empty string is the standby block. *)
Lemma reply_to_empty_string :
  reply (buildHeuristicResponse unicode_upper []) = ready_block_text.
Proof.
  rewrite (buildHeuristicResponse_table unicode_upper latin1_upper).
  reflexivity.
Qed.

Lemma POST_blank_message (payload : Route.AssistantPayload) :
  (Route.message payload = None
   \/ exists text, Route.message payload = Some text /\ trim text = []) ->
  Route.POST unicode_upper env remote (Route.body_payload payload)
  = ([], Route.json (error_object (u16 "Message is required.")) 400).
Proof.
  intros H.
  assert (Hblank : trim (nullish (Route.message payload) []) = []).
  { destruct H as [-> | (text & -> & Htext)]; [reflexivity | exact Htext]. }
  unfold Route.POST, Route.POST_try, Route.request_json, Route.bind, Route.ret.
  now rewrite Hblank.
Qed.

(** C10, amended.  A request whose body parses to a value other than
    [null], seen as the payload the handler takes it for, and whose
    [message] is absent or blank after trimming, is answered with status
    400 and the object [{ error: "Message is required." }], which has no
    [reply]; the handler calls neither the completion endpoint nor the
    generator. *)
Theorem POST_message_required (payload : Route.AssistantPayload) :
  (Route.message payload = None
   \/ exists text, Route.message payload = Some text /\ trim text = []) ->
  Route.POST unicode_upper env remote (Route.body_payload payload)
  = ([],
     {| Route.status := 400;
        Route.body :=
          json_object
            {| field_reply := None; field_summary := None;
               field_followUps := None;
               field_error := Some (u16 "Message is required.") |} |})
  /\ Route.status
       (snd (Route.POST unicode_upper env remote (Route.body_payload payload)))
     = 400%N
  /\ json_reply
       (Route.body
          (snd (Route.POST unicode_upper env remote (Route.body_payload payload))))
     = None
  /\ fst (Route.POST unicode_upper env remote (Route.body_payload payload)) = [].
Proof.
  intros H. rewrite (POST_blank_message payload H). repeat split.
Qed.

End RouteFacts.

Lemma POST_message_required_witness :
  Route.status
    (snd (Route.POST latin1_upper keyed_env failing_remote
            (Route.body_payload
               {| Route.message := Some [32; 9; 160; 10]%N;
                  Route.history := None |})))
  = 400%N.
Proof.
  apply (POST_message_required latin1_upper keyed_env failing_remote
           {| Route.message := Some [32; 9; 160; 10]%N;
              Route.history := None |}).
  right. exists [32; 9; 160; 10]%N. split; reflexivity.
Defined.

(** C10, as stated, fails on the body [null].  It parses as JSON and has no
    [message], yet the read of [body.message] throws and the [catch]
    answers: the status is 200, not 400; the response carries the
    generator's reply to the empty string, the standby block, and no
    [error]; and the generator has been called. *)
Lemma POST_null_body_is_answered :
  Route.POST latin1_upper keyed_env failing_remote Route.body_null
  = ([Route.call_heuristic []],
     {| Route.status := 200;
        Route.body :=
          json_of_response (buildHeuristicResponse latin1_upper []) |})
  /\ Route.status
       (snd (Route.POST latin1_upper keyed_env failing_remote Route.body_null))
     <> 400%N
  /\ json_reply
       (Route.body
          (snd (Route.POST latin1_upper keyed_env failing_remote
                  Route.body_null)))
     = Some ready_block_text
  /\ json_error
       (Route.body
          (snd (Route.POST latin1_upper keyed_env failing_remote
                  Route.body_null)))
     = None.
Proof.
  split; [reflexivity|]. split; [vm_compute; discriminate|].
  split; reflexivity.
Qed.

(** ** [trim] twice *)

Lemma trimStart_idempotent (s : js_string) :
  trimStart (trimStart s) = trimStart s.
Proof.
  induction s as [|c s IH]; [reflexivity|].
  simpl. destruct (is_whitespace c) eqn:Hc; [exact IH|].
  simpl. now rewrite Hc.
Qed.

Lemma trimEnd_idempotent (s : js_string) : trimEnd (trimEnd s) = trimEnd s.
Proof.
  unfold trimEnd. now rewrite rev_involutive, trimStart_idempotent.
Qed.

Lemma trimStart_snoc (s : js_string) (c : code_unit) :
  is_whitespace c = false -> exists u, trimStart (s ++ [c]) = u ++ [c].
Proof.
  intros Hc. induction s as [|a s IH].
  - exists []. simpl. now rewrite Hc.
  - simpl. destruct (is_whitespace a); [exact IH|]. now exists (a :: s).
Qed.

Lemma trimEnd_cons (s : js_string) (c : code_unit) :
  is_whitespace c = false -> exists t, trimEnd (c :: s) = c :: t.
Proof.
  intros Hc. unfold trimEnd. simpl.
  destruct (trimStart_snoc (rev s) c Hc) as (u & ->).
  exists (rev u). now rewrite rev_app_distr.
Qed.

(** The route trims the message that the component has trimmed already;
    the second [trim] changes nothing. *)
Lemma trim_idempotent (s : js_string) : trim (trim s) = trim s.
Proof.
  unfold trim. destruct (trimStart s) as [|c t] eqn:E; [reflexivity|].
  pose proof (trimStart_head s t c E) as Hc.
  destruct (trimEnd_cons t c Hc) as (t' & Ht).
  assert (Hs : trimStart (trimEnd (c :: t)) = trimEnd (c :: t)).
  { rewrite Ht. simpl. now rewrite Hc. }
  rewrite Hs. apply trimEnd_idempotent.
Qed.

(** ** Submissions *)

(** A submission that is blank after trimming, or made through a
    callback whose render was loading, changes nothing: the state, and with
    it the history, is the one before, and no request is issued. *)
Lemma submitMessage_in_rejected (render st : Agent.State) (fresh : Agent.Fresh)
    (text : js_string) :
  trim text = [] \/ Agent.isLoading render = true ->
  Agent.submitMessage_in render st fresh text = (st, [], None).
Proof.
  intros H. unfold Agent.submitMessage_in.
  destruct H as [-> | ->]; [reflexivity|]. now rewrite orb_true_r.
Qed.

Lemma submitMessage_rejected (st : Agent.State) (fresh : Agent.Fresh)
    (text : js_string) :
  trim text = [] \/ Agent.isLoading st = true ->
  Agent.submitMessage_begin st fresh text = (st, [], None)
  /\ Agent.messages (fst (fst (Agent.submitMessage_begin st fresh text)))
     = Agent.messages st
  /\ Agent.requests (snd (fst (Agent.submitMessage_begin st fresh text))) = []
  /\ forall unicode_upper null_reply_error env remote fresh',
       Session.round_trip unicode_upper null_reply_error env remote st fresh
         fresh' text
       = (st, []).
Proof.
  intros H.
  assert (E : Agent.submitMessage_begin st fresh text = (st, [], None)).
  { now apply submitMessage_in_rejected. }
  unfold Session.round_trip. rewrite E. repeat split.
Qed.

(** What an accepted submission does before it suspends. *)
Lemma submitMessage_in_accepted (render st : Agent.State) (fresh : Agent.Fresh)
    (text : js_string) :
  trim text <> [] -> Agent.isLoading render = false ->
  exists st1 pending,
    Agent.submitMessage_in render st fresh text
    = (st1, [Agent.fetch_assistant (Agent.pending_request pending)], Some pending)
    /\ Agent.messages st1
       = Agent.messages st
         ++ [{| Agent.id := Agent.uuid fresh; Agent.role := user;
                Agent.content := trim text;
                Agent.createdAt := Agent.now fresh |}]
    /\ Agent.isLoading st1 = true
    /\ Agent.interimTranscript st1 = []
    /\ Agent.input st1 = []
    /\ Agent.autoSpeak st1 = Agent.autoSpeak st
    /\ Agent.request_message (Agent.pending_request pending) = trim text
    /\ Agent.request_history (Agent.pending_request pending)
       = slice_last 6 (Agent.messages render)
    /\ Agent.pending_autoSpeak pending = Agent.autoSpeak render.
Proof.
  intros Htext Hidle. apply truthy_true in Htext.
  unfold Agent.submitMessage_in. rewrite Htext, Hidle. cbn [negb orb].
  eexists.
  exists {| Agent.pending_request :=
              {| Agent.request_message := trim text;
                 Agent.request_history := slice_last 6 (Agent.messages render) |};
            Agent.pending_autoSpeak := Agent.autoSpeak render |}.
  split; [reflexivity|]. repeat split.
Qed.

Lemma submitMessage_accepted (st : Agent.State) (fresh : Agent.Fresh)
    (text : js_string) :
  trim text <> [] -> Agent.isLoading st = false ->
  exists st1 pending,
    Agent.submitMessage_begin st fresh text
    = (st1, [Agent.fetch_assistant (Agent.pending_request pending)], Some pending)
    /\ Agent.messages st1
       = Agent.messages st
         ++ [{| Agent.id := Agent.uuid fresh; Agent.role := user;
                Agent.content := trim text;
                Agent.createdAt := Agent.now fresh |}]
    /\ Agent.isLoading st1 = true
    /\ Agent.interimTranscript st1 = []
    /\ Agent.input st1 = []
    /\ Agent.autoSpeak st1 = Agent.autoSpeak st
    /\ Agent.request_message (Agent.pending_request pending) = trim text
    /\ Agent.request_history (Agent.pending_request pending)
       = slice_last 6 (Agent.messages st)
    /\ Agent.pending_autoSpeak pending = Agent.autoSpeak st.
Proof. exact (submitMessage_in_accepted st st fresh text). Qed.


(** What the settled [fetch] does, whichever way it settles. *)
Lemma submitMessage_settled (null_reply_error : js_string)
    (pending : Agent.Pending) (st : Agent.State)
    (fresh : Agent.Fresh) (outcome : Agent.FetchOutcome) :
  exists m,
    Agent.messages
      (fst (Agent.submitMessage_settle null_reply_error pending st fresh outcome))
    = Agent.messages st ++ [m]
    /\ Agent.role m = assistant
    /\ Agent.content m
       = match Agent.response_data null_reply_error outcome with
         | inr data => nullish (json_reply data) Agent.standby_line
         | inl err => Agent.issue_text err
         end
    /\ Agent.isLoading
         (fst (Agent.submitMessage_settle null_reply_error pending st fresh
                 outcome)) = false
    /\ snd (Agent.submitMessage_settle null_reply_error pending st fresh outcome)
       = match Agent.response_data null_reply_error outcome with
         | inr data =>
             if Agent.pending_autoSpeak pending
             then [Agent.speak (nullish (json_reply data) Agent.standby_line)]
             else []
         | inl _ => []
         end.
Proof.
  unfold Agent.submitMessage_settle.
  destruct (Agent.response_data null_reply_error outcome) as [err | data];
    eexists; cbn; repeat split.
Qed.




(** C8, as stated, fails, in three ways.  When the round trip completes
    with a [reply] that is the empty string (here the object the completion
    endpoint returned, passed on by the route), the standby line does not
    replace it and the assistant utterance appended has empty content.
    When it completes with the body [null] (the content of the endpoint's
    message parsed to [null] and was passed on), there is no [reply], yet
    the utterance appended is not the standby line but the explanation of
    the [TypeError], and nothing is handed to speech synthesis although
    auto-speak is enabled.  When the user unticks auto-speak while the round
    trip is awaiting, the reply is handed to speech synthesis all the same,
    auto-speak being disabled when the round trip completes. *)
Lemma completed_round_trip_refuted :
  ~ (forall m,
       In m (Agent.messages
               (fst (Session.round_trip latin1_upper v8_null_reply_error
                       keyed_env empty_reply_remote Agent.initial sample_fresh
                       sample_fresh critical_tasks_input))) ->
       Agent.role m = assistant ->
       Agent.content m <> [])
  /\ map (fun m => (Agent.role m, Agent.content m))
       (Agent.messages
          (fst (Session.round_trip latin1_upper v8_null_reply_error keyed_env
                  null_remote Agent.initial sample_fresh later_fresh
                  critical_tasks_input)))
     = [(user, critical_tasks_input);
        (assistant,
         u16 "I ran into an issue: Cannot read properties of null (reading 'reply'). Please try again.")]
  /\ snd (Session.round_trip latin1_upper v8_null_reply_error keyed_env
            null_remote Agent.initial sample_fresh later_fresh
            critical_tasks_input)
     = [Agent.fetch_assistant
          {| Agent.request_message := critical_tasks_input;
             Agent.request_history := [] |}]
  /\ Agent.autoSpeak
       (Runtime.ui
          (fst (Runtime.run v8_null_reply_error Runtime.start
                  unticked_while_awaiting)))
     = false
  /\ In (Agent.speak (u16 "Hello."))
       (snd (Runtime.run v8_null_reply_error Runtime.start
               unticked_while_awaiting)).
Proof.
  split.
  - intros H.
    apply (H {| Agent.id := Agent.uuid sample_fresh; Agent.role := assistant;
                Agent.content := [];
                Agent.createdAt := Agent.now sample_fresh |}).
    + vm_compute. right. left. reflexivity.
    + reflexivity.
    + reflexivity.
  - split; [vm_compute; reflexivity|]. split; [vm_compute; reflexivity|].
    split; [vm_compute; reflexivity|].
    vm_compute. right. left. reflexivity.
Qed.

(** C8, amended. When the round trip of a submission completes with a
    response in the range 200-299 whose body is not [null], the assistant
    utterance appended carries the returned [reply] whenever a [reply] is
    present, be it the empty string, and the fixed standby line "I am ready
    for your next task." only when [reply] is absent.  The same text is
    handed to speech synthesis exactly when auto-speak is enabled, for a
    setting that is the one of the render whose callback made the
    submission; the awaiting state is released. *)
Theorem completed_round_trip_appends_reply (null_reply_error : js_string)
    (render st0 st1 st : Agent.State) (fresh0 fresh : Agent.Fresh)
    (text : js_string) (effects0 : list Agent.Effect)
    (pending : Agent.Pending) (status : N) (fields : ResponseFields) :
  Agent.submitMessage_in render st0 fresh0 text = (st1, effects0, Some pending) ->
  ok status = true ->
  Agent.autoSpeak st = Agent.autoSpeak render ->
  exists m,
    Agent.messages
      (fst (Agent.submitMessage_settle null_reply_error pending st fresh
              (Agent.fetch_response status
                 (Agent.body_json (json_object fields)))))
    = Agent.messages st ++ [m]
    /\ Agent.role m = assistant
    /\ Agent.content m
       = match field_reply fields with
         | Some reply => reply
         | None => u16 "I am ready for your next task."
         end
    /\ snd (Agent.submitMessage_settle null_reply_error pending st fresh
              (Agent.fetch_response status
                 (Agent.body_json (json_object fields))))
       = (if Agent.autoSpeak st then [Agent.speak (Agent.content m)] else [])
    /\ Agent.isLoading
         (fst (Agent.submitMessage_settle null_reply_error pending st fresh
                 (Agent.fetch_response status
                    (Agent.body_json (json_object fields)))))
       = false.
Proof.
  intros Hbegin Hok Hsame.
  assert (Hspeak : Agent.pending_autoSpeak pending = Agent.autoSpeak render).
  { unfold Agent.submitMessage_in in Hbegin.
    destruct (negb (truthy (trim text)) || Agent.isLoading render);
      [discriminate|].
    injection Hbegin as _ _ <-. reflexivity. }
  destruct (submitMessage_settled null_reply_error pending st fresh
              (Agent.fetch_response status
                 (Agent.body_json (json_object fields))))
    as (m & Hm & Hrole & Hcontent & Hdone & Heffects).
  unfold Agent.response_data in Hcontent, Heffects.
  rewrite Hok in Hcontent, Heffects. cbn [negb] in Hcontent, Heffects.
  exists m. rewrite Heffects, Hspeak, Hsame, Hcontent.
  repeat split; trivial.
Qed.

(** The empty reply of the endpoint, settled in the state the submission
    left. *)
Lemma completed_round_trip_appends_reply_witness :
  exists m,
    Agent.messages
      (fst (Agent.submitMessage_settle v8_null_reply_error sample_pending
              awaiting_state later_fresh
              (Agent.fetch_response 200 (Agent.body_json empty_reply_data))))
    = Agent.messages awaiting_state ++ [m]
    /\ Agent.content m = [].
Proof.
  destruct (completed_round_trip_appends_reply v8_null_reply_error
              Agent.initial Agent.initial awaiting_state awaiting_state
              sample_fresh later_fresh critical_tasks_input
              [Agent.fetch_assistant (Agent.pending_request sample_pending)]
              sample_pending 200%N
              {| field_reply := Some []; field_summary := None;
                 field_followUps := None; field_error := None |})
    as (m & Hm & _ & Hcontent & _).
  - reflexivity.
  - reflexivity.
  - reflexivity.
  - exists m. split; assumption.
Defined.

(** ** Recognition results *)

Lemma scan_results_pair (event : Agent.RecognitionEvent)
    (interim_segment final_segment : Agent.RecognitionEventResult) :
  Agent.isFinal interim_segment = false ->
  Agent.isFinal final_segment = true ->
  (skipn (Agent.resultIndex event) (Agent.results event)
   = [interim_segment; final_segment]
   \/ skipn (Agent.resultIndex event) (Agent.results event)
      = [final_segment; interim_segment]) ->
  Agent.scan_results event
  = (Agent.transcript_of interim_segment, Agent.transcript_of final_segment).
Proof.
  intros Hi Hf Hnew. unfold Agent.scan_results.
  destruct Hnew as [-> | ->]; simpl;
    rewrite ?Hi, ?Hf; simpl; rewrite ?Hi, ?Hf; reflexivity.
Qed.

(** The handler on an event that yields some final text: the interim
    buffer is overwritten, then the trimmed final text goes to the
    [submitMessage] of the listener's render, once. *)
Lemma handleResult_in_final (render st : Agent.State) (fresh : Agent.Fresh)
    (event : Agent.RecognitionEvent) (interim finalTranscript : js_string) :
  Agent.scan_results event = (interim, finalTranscript) ->
  trim finalTranscript <> [] ->
  Agent.handleResult_in render st fresh event
  = (if Agent.isLoading render
     then (Agent.setInterimTranscript interim st,
           [Agent.call_submitMessage (trim finalTranscript)], None)
     else
       let request :=
         {| Agent.request_message := trim finalTranscript;
            Agent.request_history := slice_last 6 (Agent.messages render) |} in
       (Agent.setError None
          (Agent.setIsLoading true
             (Agent.setInterimTranscript []
                (Agent.setInput []
                   (Agent.setMessages
                      (fun prev =>
                         prev ++ [{| Agent.id := Agent.uuid fresh;
                                     Agent.role := user;
                                     Agent.content := trim finalTranscript;
                                     Agent.createdAt := Agent.now fresh |}])
                      (Agent.setInterimTranscript interim st))))),
        [Agent.call_submitMessage (trim finalTranscript);
         Agent.fetch_assistant request],
        Some {| Agent.pending_request := request;
                Agent.pending_autoSpeak := Agent.autoSpeak render |})).
Proof.
  intros Hscan Hfinal. unfold Agent.handleResult_in. rewrite Hscan.
  pose proof Hfinal as Ht. apply truthy_true in Ht. rewrite Ht.
  unfold Agent.submitMessage_in. rewrite trim_idempotent, Ht.
  cbn [negb orb]. destruct (Agent.isLoading render); reflexivity.
Qed.

(** C5, as stated, fails.  The second suggestion has been typed and sent,
    the microphone is on, and React has rendered and run the effects since,
    so that the listener in place is the one of the latest render; the
    round trip is awaiting its response.  On the result event with the
    interim segment "list my" and the final segment " hello Jarvis " the
    utterance "hello Jarvis" is handed to [submitMessage], which rejects
    it, and the interim transcript keeps "list my" instead of being
    cleared. *)
Lemma interim_kept_while_awaiting :
  Runtime.listener
    (fst (Runtime.run v8_null_reply_error Runtime.start awaiting_with_microphone))
  = Runtime.ui
      (fst (Runtime.run v8_null_reply_error Runtime.start awaiting_with_microphone))
  /\ Agent.isLoading
       (Runtime.ui
          (fst (Runtime.run v8_null_reply_error Runtime.start
                  awaiting_with_microphone)))
     = true
  /\ List.length
       (Runtime.in_flight
          (fst (Runtime.run v8_null_reply_error Runtime.start
                  awaiting_with_microphone))) = 1
  /\ Agent.emitted
       (snd (Runtime.step v8_null_reply_error
               (fst (Runtime.run v8_null_reply_error Runtime.start
                       awaiting_with_microphone))
               (Runtime.recognition_result hello_event later_fresh)))
     = [u16 "hello Jarvis"]
  /\ Agent.interimTranscript
       (Runtime.ui
          (fst (Runtime.run v8_null_reply_error Runtime.start
                  result_while_awaiting)))
     = u16 "list my"
  /\ Agent.interimTranscript
       (Runtime.ui
          (fst (Runtime.run v8_null_reply_error Runtime.start
                  result_while_awaiting)))
     <> [].
Proof.
  split; [vm_compute; reflexivity|]. split; [vm_compute; reflexivity|].
  split; [vm_compute; reflexivity|]. split; [vm_compute; reflexivity|].
  split; [vm_compute; reflexivity|]. vm_compute. discriminate.
Qed.

(** C5, amended. On a result event whose new segments, those from
    [resultIndex] on, are one interim and one final segment, in either
    order, the handler overwrites the interim buffer (what it held before
    plays no part) and, the final text being non-empty after trimming,
    hands exactly one utterance, the trimmed final text, to
    [submitMessage].  When [submitMessage] accepts the utterance the
    interim transcript ends up empty; when it rejects it the interim
    transcript is the interim text of the event, the history is unchanged
    and no request is issued.  It rejects exactly when the [isLoading] of
    the render that registered the listener is set. *)
Theorem handleResult_interim_and_final (render st : Agent.State)
    (fresh : Agent.Fresh) (event : Agent.RecognitionEvent)
    (interim_segment final_segment : Agent.RecognitionEventResult) :
  Agent.isFinal interim_segment = false ->
  Agent.isFinal final_segment = true ->
  (skipn (Agent.resultIndex event) (Agent.results event)
   = [interim_segment; final_segment]
   \/ skipn (Agent.resultIndex event) (Agent.results event)
      = [final_segment; interim_segment]) ->
  trim (Agent.transcript_of final_segment) <> [] ->
  Agent.emitted (snd (fst (Agent.handleResult_in render st fresh event)))
  = [trim (Agent.transcript_of final_segment)]
  /\ (forall previous,
        Agent.handleResult_in render (Agent.setInterimTranscript previous st)
          fresh event
        = Agent.handleResult_in render st fresh event)
  /\ (forall pending,
        snd (Agent.handleResult_in render st fresh event) = Some pending ->
        Agent.interimTranscript
          (fst (fst (Agent.handleResult_in render st fresh event))) = []
        /\ Agent.request_message (Agent.pending_request pending)
           = trim (Agent.transcript_of final_segment))
  /\ (snd (Agent.handleResult_in render st fresh event) = None ->
      Agent.interimTranscript
        (fst (fst (Agent.handleResult_in render st fresh event)))
      = Agent.transcript_of interim_segment
      /\ Agent.messages (fst (fst (Agent.handleResult_in render st fresh event)))
         = Agent.messages st
      /\ Agent.requests (snd (fst (Agent.handleResult_in render st fresh event)))
         = [])
  /\ (snd (Agent.handleResult_in render st fresh event) = None
      <-> Agent.isLoading render = true).
Proof.
  intros Hi Hf Hnew Hfinal.
  pose proof (scan_results_pair event interim_segment final_segment Hi Hf Hnew)
    as Hscan.
  assert (Hrun : forall s,
    Agent.handleResult_in render s fresh event
    = (if Agent.isLoading render
       then (Agent.setInterimTranscript (Agent.transcript_of interim_segment) s,
             [Agent.call_submitMessage (trim (Agent.transcript_of final_segment))],
             None)
       else
         let request :=
           {| Agent.request_message := trim (Agent.transcript_of final_segment);
              Agent.request_history := slice_last 6 (Agent.messages render) |} in
         (Agent.setError None
            (Agent.setIsLoading true
               (Agent.setInterimTranscript []
                  (Agent.setInput []
                     (Agent.setMessages
                        (fun prev =>
                           prev ++ [{| Agent.id := Agent.uuid fresh;
                                       Agent.role := user;
                                       Agent.content :=
                                         trim (Agent.transcript_of final_segment);
                                       Agent.createdAt := Agent.now fresh |}])
                        (Agent.setInterimTranscript
                           (Agent.transcript_of interim_segment) s))))),
          [Agent.call_submitMessage (trim (Agent.transcript_of final_segment));
           Agent.fetch_assistant request],
          Some {| Agent.pending_request := request;
                  Agent.pending_autoSpeak := Agent.autoSpeak render |}))).
  { intros s. now apply handleResult_in_final. }
  split; [|split; [|split; [|split]]].
  - rewrite Hrun. destruct (Agent.isLoading render); reflexivity.
  - intros previous. rewrite !Hrun.
    destruct (Agent.isLoading render); reflexivity.
  - intros pending. rewrite Hrun. destruct (Agent.isLoading render);
      cbn [snd fst]; [discriminate|].
    intros [= <-]. split; reflexivity.
  - rewrite Hrun. destruct (Agent.isLoading render);
      cbn [snd fst]; [|discriminate].
    intros _. repeat split.
  - rewrite Hrun. destruct (Agent.isLoading render); cbn [snd];
      split; congruence.
Qed.

Lemma handleResult_interim_and_final_witness :
  Agent.emitted
    (snd (fst (Agent.handleResult_in Agent.initial Agent.initial sample_fresh
                 hello_event)))
  = [u16 "hello Jarvis"].
Proof.
  apply (handleResult_interim_and_final Agent.initial Agent.initial sample_fresh
           hello_event
           {| Agent.isFinal := false;
              Agent.alternative0 := Some (Some (u16 "list my")) |}
           {| Agent.isFinal := true;
              Agent.alternative0 := Some (Some (u16 " hello Jarvis ")) |}).
  - reflexivity.
  - reflexivity.
  - left. reflexivity.
  - vm_compute. discriminate.
Defined.

(** ** Round trips through the route *)

Section SessionFacts.

Variable unicode_upper : code_unit -> js_string.
Variable null_reply_error : js_string.
Variable env : Route.Env.
Variable remote : Route.ChatRequest -> Route.RemoteOutcome.

(** A response of the route with status 200 and a [reply] is appended as
    it is. *)
Lemma round_trip_reply (st : Agent.State) (fresh1 fresh2 : Agent.Fresh)
    (text : js_string) (calls : list Route.Call) (response : AssistantResponse) :
  trim text <> [] -> Agent.isLoading st = false ->
  (forall history,
     Route.POST unicode_upper env remote
       (Route.body_payload
          {| Route.message := Some (trim text); Route.history := history |})
     = (calls, Route.json (json_of_response response) 200)) ->
  exists m_user m_assistant,
    Agent.messages
      (fst (Session.round_trip unicode_upper null_reply_error env remote st fresh1 fresh2 text))
    = Agent.messages st ++ [m_user; m_assistant]
    /\ Agent.role m_user = user
    /\ Agent.content m_user = trim text
    /\ Agent.role m_assistant = assistant
    /\ Agent.content m_assistant = reply response
    /\ Agent.isLoading
         (fst (Session.round_trip unicode_upper null_reply_error env remote st fresh1 fresh2 text))
       = false.
Proof.
  intros Htext Hidle Hpost.
  destruct (submitMessage_accepted st fresh1 text Htext Hidle)
    as (st1 & pending & Hbegin & Hmsgs & _ & _ & _ & _ & Hmsg & _).
  unfold Session.round_trip. rewrite Hbegin.
  unfold Session.payload_of. rewrite Hmsg, Hpost.
  unfold Session.outcome_of, Route.json. cbn [snd Route.status Route.body].
  destruct (submitMessage_settled null_reply_error pending st1 fresh2
              (Agent.fetch_response 200
                 (Agent.body_json (json_of_response response))))
    as (m & Hm & Hrole & Hcontent & Hdone & _).
  destruct (Agent.submitMessage_settle null_reply_error pending st1 fresh2
              (Agent.fetch_response 200
                 (Agent.body_json (json_of_response response))))
    as [st2 effects'].
  cbn [fst] in *. rewrite Hm, Hmsgs, <- app_assoc.
  do 2 eexists. split; [reflexivity|]. repeat split; assumption.
Qed.

(** Without a key, the utterance appended is the generator's reply to the
    trimmed message. *)
Lemma round_trip_without_key (st : Agent.State) (fresh1 fresh2 : Agent.Fresh)
    (text : js_string) :
  trim text <> [] -> Agent.isLoading st = false ->
  (Route.env_OPENAI_API_KEY env = None
   \/ Route.env_OPENAI_API_KEY env = Some []) ->
  exists m_user m_assistant,
    Agent.messages
      (fst (Session.round_trip unicode_upper null_reply_error env remote st fresh1 fresh2 text))
    = Agent.messages st ++ [m_user; m_assistant]
    /\ Agent.content m_user = trim text
    /\ Agent.content m_assistant
       = reply (buildHeuristicResponse unicode_upper (trim text)).
Proof.
  intros Htext Hidle Hkey.
  destruct (round_trip_reply st fresh1 fresh2 text
              [Route.call_heuristic (trim text)]
              (buildHeuristicResponse unicode_upper (trim text)) Htext Hidle)
    as (mu & ma & Hm & _ & Hu & _ & Ha & _).
  - intros history.
    pose proof (POST_without_key unicode_upper env remote
                  {| Route.message := Some (trim text);
                     Route.history := history |}) as H.
    cbv zeta in H. cbn [Route.message nullish] in H.
    rewrite trim_idempotent in H. now apply H.
  - now exists mu, ma.
Qed.

(** With a key and a failing endpoint, the utterance appended is the
    generator's reply to the empty string, whatever the message. *)
Lemma round_trip_remote_failure (st : Agent.State) (fresh1 fresh2 : Agent.Fresh)
    (text key : js_string) :
  trim text <> [] -> Agent.isLoading st = false ->
  Route.env_OPENAI_API_KEY env = Some key -> key <> [] ->
  (forall request, Route.remote_fails (remote request) = true) ->
  exists m_user m_assistant,
    Agent.messages
      (fst (Session.round_trip unicode_upper null_reply_error env remote st fresh1 fresh2 text))
    = Agent.messages st ++ [m_user; m_assistant]
    /\ Agent.content m_user = trim text
    /\ Agent.content m_assistant = reply (buildHeuristicResponse unicode_upper []).
Proof.
  intros Htext Hidle Hkey Hne Hfails.
  destruct (submitMessage_accepted st fresh1 text Htext Hidle)
    as (st1 & pending & Hbegin & Hmsgs & _ & _ & _ & _ & Hmsg & _).
  unfold Session.round_trip. rewrite Hbegin. unfold Session.payload_of.
  match goal with |- context [Route.body_payload ?p] =>
    destruct (POST_remote_failure unicode_upper env remote p key)
      as (request & ->); trivial end.
  { cbn [Route.message nullish]. now rewrite Hmsg, trim_idempotent. }
  unfold Session.outcome_of, Route.json. cbn [snd Route.status Route.body].
  destruct (submitMessage_settled null_reply_error pending st1 fresh2
              (Agent.fetch_response 200
                 (Agent.body_json
                    (json_of_response (buildHeuristicResponse unicode_upper [])))))
    as (m & Hm & _ & Hcontent & _).
  destruct (Agent.submitMessage_settle null_reply_error pending st1 fresh2
              (Agent.fetch_response 200
                 (Agent.body_json
                    (json_of_response (buildHeuristicResponse unicode_upper [])))))
    as [st2 effects'].
  cbn [fst] in *. rewrite Hm, Hmsgs, <- app_assoc.
  do 2 eexists. split; [reflexivity|]. split; [reflexivity | exact Hcontent].
Qed.

End SessionFacts.

(** C2, at a failing input. With a key configured and an endpoint that
    answers HTTP 500, the message "What are my critical tasks today?" is
    answered by the route with status 200 and the generator's reply to the
    empty string, and that reply, the standby block, is what the component
    appends; the generator applied to the message itself yields the task
    block, which is what the same message gets when no key is configured. *)
Theorem remote_failure_ignores_message
    (unicode_upper : code_unit -> js_string) (null_reply_error : js_string) :
  let response :=
    snd (Route.POST unicode_upper keyed_env failing_remote
           (Route.body_payload
              {| Route.message := Some critical_tasks_input;
                 Route.history := None |})) in
  let st :=
    fst (Session.round_trip unicode_upper null_reply_error keyed_env
           failing_remote Agent.initial sample_fresh sample_fresh
           critical_tasks_input) in
  Route.status response = 200%N
  /\ json_reply (Route.body response)
     = Some (reply (buildHeuristicResponse unicode_upper []))
  /\ map Agent.content (Agent.messages st)
     = [critical_tasks_input; reply (buildHeuristicResponse unicode_upper [])]
  /\ reply (buildHeuristicResponse unicode_upper []) = join newline ready_section
  /\ reply (buildHeuristicResponse unicode_upper critical_tasks_input)
     = join newline task_section
  /\ reply (buildHeuristicResponse unicode_upper [])
     <> reply (buildHeuristicResponse unicode_upper critical_tasks_input).
Proof.
  cbv zeta.
  assert (Hmsg : trim critical_tasks_input <> [])
    by (vm_compute; discriminate).
  assert (Hkey : u16 "sk-test" <> []) by discriminate.
  destruct (POST_remote_failure unicode_upper keyed_env failing_remote
              {| Route.message := Some critical_tasks_input;
                 Route.history := None |} (u16 "sk-test")
              Hmsg eq_refl Hkey (fun _ => eq_refl))
    as (request & ->).
  destruct (round_trip_remote_failure unicode_upper null_reply_error keyed_env
              failing_remote
              Agent.initial sample_fresh sample_fresh critical_tasks_input
              (u16 "sk-test") Hmsg eq_refl eq_refl Hkey (fun _ => eq_refl))
    as (mu & ma & -> & Hu & Ha).
  cbn [snd Route.json Route.status Route.body json_of_response json_reply
       Agent.messages Agent.initial app map].
  rewrite Hu, Ha.
  rewrite (buildHeuristicResponse_table unicode_upper latin1_upper []).
  rewrite (buildHeuristicResponse_table unicode_upper latin1_upper
             critical_tasks_input).
  repeat split; try (vm_compute; reflexivity). vm_compute. discriminate.
Qed.

(** * Further properties *)

(** ** The generator on arbitrary text *)

Lemma NoDup_marketplaces : NoDup marketplaces.
Proof.
  unfold marketplaces.
  repeat (constructor; [simpl; intuition discriminate|]). constructor.
Qed.

(** The marketplaces detected are those names of the fixed list that occur
    in the text up to case; they come in the order of the list, each once,
    wherever and however often the text mentions them. *)
Theorem detectedMarketplaces_canonical
    (unicode_upper : code_unit -> js_string) (input : js_string) :
  (forall name,
     In name (detectedMarketplaces unicode_upper input)
     <-> In name marketplaces /\ contains_ci name input)
  /\ NoDup (detectedMarketplaces unicode_upper input)
  /\ exists keep : js_string -> bool,
       detectedMarketplaces unicode_upper input = filter keep marketplaces.
Proof.
  rewrite detectedMarketplaces_includes. split; [|split].
  - intros name. rewrite filter_In, includes_ci_spec. reflexivity.
  - apply NoDup_filter, NoDup_marketplaces.
  - now exists (fun name => includes_ci name input).
Qed.

(** The two intents, read as occurrences of words. *)
Lemma wantsTasks_spec (up : code_unit -> js_string) (input : js_string) :
  wantsTasks up input = true
  <-> exists word, In word task_words /\ contains_ci word input.
Proof. apply test_i_spec, ascii_task_words. Qed.

Lemma wantsCatalog_spec (up : code_unit -> js_string) (input : js_string) :
  wantsCatalog up input = true
  <-> (exists word, In word catalog_words /\ contains_ci word input)
      \/ (exists name, In name marketplaces /\ contains_ci name input).
Proof.
  rewrite wantsCatalog_includes, orb_true_iff, !existsb_exists.
  split; (intros [(w & Hin & Hw) | (w & Hin & Hw)];
          [left | right]; exists w; split; trivial; now apply includes_ci_spec).
Qed.

(** Task intent is the occurrence of a task word, catalog intent the
    occurrence of a catalog word or of a marketplace name, in both cases up
    to the case of the letters; the two are decided independently. *)
Theorem intents_are_word_occurrences
    (unicode_upper : code_unit -> js_string) (input : js_string) :
  (wantsTasks unicode_upper input = true
   <-> exists word, In word task_words /\ contains_ci word input)
  /\ (wantsCatalog unicode_upper input = true
      <-> (exists word, In word catalog_words /\ contains_ci word input)
          \/ (exists name, In name marketplaces /\ contains_ci name input)).
Proof. split; [apply wantsTasks_spec | apply wantsCatalog_spec]. Qed.

(** *** Case *)

Lemma starts_with_ci_case (word a b : js_string) :
  map ascii_upper a = map ascii_upper b ->
  starts_with_ci word a = starts_with_ci word b.
Proof.
  revert a b. induction word as [|p word IH]; intros a b H; [reflexivity|].
  destruct a as [|x a], b as [|y b]; try discriminate; [reflexivity|].
  simpl in H. injection H as Hxy H. simpl. now rewrite Hxy, (IH a b H).
Qed.

Lemma includes_ci_case (word a b : js_string) :
  map ascii_upper a = map ascii_upper b ->
  includes_ci word a = includes_ci word b.
Proof.
  revert b. induction a as [|x a IH]; intros b H.
  - destruct b; [reflexivity|discriminate].
  - destruct b as [|y b]; [discriminate|].
    cbn [includes_ci]. rewrite (starts_with_ci_case word _ _ H).
    simpl in H. injection H as _ H. now rewrite (IH b H).
Qed.

Lemma responseSections_case (up : code_unit -> js_string) (a b : js_string) :
  map ascii_upper a = map ascii_upper b ->
  wantsTasks up a = wantsTasks up b
  /\ wantsCatalog up a = wantsCatalog up b
  /\ detectedMarketplaces up a = detectedMarketplaces up b.
Proof.
  intros H.
  rewrite !wantsTasks_includes, !wantsCatalog_includes,
    !detectedMarketplaces_includes.
  assert (E : forall word, includes_ci word a = includes_ci word b)
    by (intros word; now apply includes_ci_case).
  repeat split.
  - now apply existsb_pointwise.
  - f_equal; now apply existsb_pointwise.
  - apply filter_ext. exact E.
Qed.

(** The response depends on the text only up to the case of its ASCII
    letters: two texts that agree once their letters are upper-cased get the
    same reply, summary and follow-ups. *)
Theorem buildHeuristicResponse_ignores_case
    (unicode_upper : code_unit -> js_string) (a b : js_string) :
  map ascii_upper a = map ascii_upper b ->
  buildHeuristicResponse unicode_upper a = buildHeuristicResponse unicode_upper b.
Proof.
  intros H.
  destruct (responseSections_case unicode_upper a b H) as (Ht & Hc & Hd).
  unfold buildHeuristicResponse, heuristic_followUps, responseSections,
    channelPlan.
  now rewrite Ht, Hc, Hd.
Qed.

Lemma buildHeuristicResponse_ignores_case_witness :
  buildHeuristicResponse latin1_upper (u16 "PLAN my amazon SKUs")
  = buildHeuristicResponse latin1_upper (u16 "plan MY Amazon skus").
Proof.
  apply (buildHeuristicResponse_ignores_case latin1_upper
           (u16 "PLAN my amazon SKUs") (u16 "plan MY Amazon skus")).
  reflexivity.
Defined.

(** *** The shape of a response *)

(** The follow-ups are always present and never empty: two of them, or
    four exactly when both intents hold. *)
Theorem followUps_two_or_four
    (unicode_upper : code_unit -> js_string) (input : js_string) :
  exists suggestions,
    followUps (buildHeuristicResponse unicode_upper input) = Some suggestions
    /\ (List.length suggestions = 2 \/ List.length suggestions = 4)
    /\ (List.length suggestions = 4
        <-> wantsTasks unicode_upper input = true
            /\ wantsCatalog unicode_upper input = true).
Proof.
  unfold buildHeuristicResponse, heuristic_followUps. cbn [followUps].
  eexists. split; [reflexivity|].
  destruct (wantsTasks unicode_upper input),
    (wantsCatalog unicode_upper input); cbn; split;
    try (left; reflexivity); try (right; reflexivity);
    split; try discriminate; try tauto;
    intros [? ?]; discriminate.
Qed.









(** ** The route handler, case by case *)

Section RouteCases.

Variable unicode_upper : code_unit -> js_string.
Variable env : Route.Env.
Variable remote : Route.ChatRequest -> Route.RemoteOutcome.

(** Every run of the handler is one of five. *)
Lemma POST_cases (request : Route.RequestBody) :
  ((request = Route.body_invalid \/ request = Route.body_null)
   /\ Route.POST unicode_upper env remote request
      = ([Route.call_heuristic []], heuristic_response unicode_upper []))
  \/ exists payload,
       request = Route.body_payload payload
       /\ ((trim (nullish (Route.message payload) []) = []
            /\ Route.POST unicode_upper env remote request
               = ([], message_required))
           \/ (trim (nullish (Route.message payload) []) <> []
               /\ (Route.env_OPENAI_API_KEY env = None
                   \/ Route.env_OPENAI_API_KEY env = Some [])
               /\ Route.POST unicode_upper env remote request
                  = ([Route.call_heuristic
                        (trim (nullish (Route.message payload) []))],
                     heuristic_response unicode_upper
                       (trim (nullish (Route.message payload) []))))
           \/ exists key,
                trim (nullish (Route.message payload) []) <> []
                /\ Route.env_OPENAI_API_KEY env = Some key /\ key <> []
                /\ ((Route.remote_fails (remote (chat_request env payload key))
                     = true
                     /\ Route.POST unicode_upper env remote request
                        = ([Route.call_remote (chat_request env payload key);
                            Route.call_heuristic []],
                           heuristic_response unicode_upper []))
                    \/ exists st parsed,
                         remote (chat_request env payload key)
                         = Route.remote_response st (Route.content_parsed parsed)
                         /\ ok st = true
                         /\ Route.POST unicode_upper env remote request
                            = ([Route.call_remote (chat_request env payload key)],
                               Route.json parsed 200))).
Proof.
  destruct request as [| |payload];
    [left; split; [now left | reflexivity]
    |left; split; [now right | reflexivity]|].
  right. exists payload. split; [reflexivity|].
  unfold Route.POST, Route.POST_try, Route.request_json, Route.bind, Route.ret,
    Route.complete, chat_request, heuristic_response, message_required.
  destruct (trim (nullish (Route.message payload) [])) as [|c t].
  { left. split; reflexivity. }
  right. cbn [truthy negb].
  destruct (Route.env_OPENAI_API_KEY env) as [[|k key]|].
  - left. split; [discriminate|]. split; [now right | reflexivity].
  - right. exists (k :: key). split; [discriminate|].
    split; [reflexivity|]. split; [discriminate|].
    destruct (remote _) as [|st b].
    + left. split; reflexivity.
    + destruct (ok st) eqn:Eok; cbn [negb].
      * destruct b; try (left; split; reflexivity).
        right. exists st, parsed. repeat split. exact Eok.
      * left. split; [|reflexivity]. destruct b; simpl; now rewrite ?Eok.
  - left. split; [discriminate|]. split; [now left | reflexivity].
Qed.

End RouteCases.

Lemma slice_last_length {A : Type} (n : nat) (l : list A) :
  List.length (slice_last n l) <= n.
Proof. unfold slice_last. rewrite length_skipn. lia. Qed.

Lemma slice_last_exact {A : Type} (n : nat) (l : list A) :
  List.length (slice_last n l) = Nat.min n (List.length l).
Proof. unfold slice_last. rewrite length_skipn. lia. Qed.

Lemma slice_last_suffix {A : Type} (n : nat) (l : list A) :
  exists earlier, l = earlier ++ slice_last n l.
Proof.
  exists (firstn (List.length l - n) l). unfold slice_last.
  now rewrite firstn_skipn.
Qed.

Lemma slice_last_short {A : Type} (n : nat) (l : list A) :
  List.length l <= n -> slice_last n l = l.
Proof.
  intros H. unfold slice_last.
  replace (List.length l - n) with 0 by lia. reflexivity.
Qed.

(** The handler answers every request, whatever goes wrong, with status 200
    or 400; it is 400 exactly when the body is a payload whose message is
    absent or blank, and then nothing was called and the response has no
    reply. *)
Theorem POST_status_200_or_400
    (unicode_upper : code_unit -> js_string) (env : Route.Env)
    (remote : Route.ChatRequest -> Route.RemoteOutcome)
    (request : Route.RequestBody) :
  (Route.status (snd (Route.POST unicode_upper env remote request)) = 200%N
   \/ Route.status (snd (Route.POST unicode_upper env remote request)) = 400%N)
  /\ (Route.status (snd (Route.POST unicode_upper env remote request)) = 400%N
      <-> exists payload,
            request = Route.body_payload payload
            /\ trim (nullish (Route.message payload) []) = [])
  /\ (Route.status (snd (Route.POST unicode_upper env remote request)) = 400%N
      -> fst (Route.POST unicode_upper env remote request) = []
         /\ json_reply
              (Route.body (snd (Route.POST unicode_upper env remote request)))
            = None).
Proof.
  destruct (POST_cases unicode_upper env remote request)
    as [[Hreq ->] | (payload & -> & [[Hm ->] | [(Hm & _ & ->) |
         (key & Hm & _ & _ & [[_ ->] | (st & parsed & _ & _ & ->)])]])];
    cbn [snd fst Route.status Route.body Route.json heuristic_response
         message_required json_reply error_object field_reply].
  - split; [now left|]. split; [|discriminate].
    split; [discriminate|]. intros (p & Hp & _).
    destruct Hreq as [-> | ->]; discriminate Hp.
  - split; [now right|]. split; [|intros _; split; reflexivity].
    split; [|reflexivity]. intros _. now exists payload.
  - split; [now left|]. split; [|discriminate].
    split; [discriminate|]. intros (p & Hp & Hb). injection Hp as <-.
    contradiction.
  - split; [now left|]. split; [|discriminate].
    split; [discriminate|]. intros (p & Hp & Hb). injection Hp as <-.
    contradiction.
  - split; [now left|]. split; [|discriminate].
    split; [discriminate|]. intros (p & Hp & Hb). injection Hp as <-.
    contradiction.
Qed.

Lemma POST_remote_call
    (unicode_upper : code_unit -> js_string) (env : Route.Env)
    (remote : Route.ChatRequest -> Route.RemoteOutcome)
    (request : Route.RequestBody) (sent : Route.ChatRequest) :
  In (Route.call_remote sent)
    (fst (Route.POST unicode_upper env remote request)) ->
  exists payload key,
    request = Route.body_payload payload
    /\ Route.env_OPENAI_API_KEY env = Some key /\ key <> []
    /\ trim (nullish (Route.message payload) []) <> []
    /\ sent = chat_request env payload key.
Proof.
  destruct (POST_cases unicode_upper env remote request)
    as [[_ ->] | (payload & -> & [[Hm ->] | [(Hm & _ & ->) |
         (key & Hm & Hkey & Hne & [[_ ->] | (st & parsed & _ & _ & ->)])]])];
    cbn [fst]; intros Hin; simpl in Hin;
    repeat (destruct Hin as [Hin | Hin]; try discriminate Hin);
    try contradiction;
    injection Hin as <-; exists payload, key; repeat split; assumption.
Qed.

(** The handler sends at most one request to the completion endpoint and
    never a second one after a failure; it calls the generator at most
    once, and after a request only on the empty string.  A request is sent
    only when a non-empty key is configured and the message is not blank. *)
Theorem POST_at_most_one_attempt
    (unicode_upper : code_unit -> js_string) (env : Route.Env)
    (remote : Route.ChatRequest -> Route.RemoteOutcome)
    (request : Route.RequestBody) :
  (fst (Route.POST unicode_upper env remote request) = []
   \/ (exists input,
         fst (Route.POST unicode_upper env remote request)
         = [Route.call_heuristic input])
   \/ (exists sent,
         fst (Route.POST unicode_upper env remote request)
         = [Route.call_remote sent])
   \/ (exists sent,
         fst (Route.POST unicode_upper env remote request)
         = [Route.call_remote sent; Route.call_heuristic []]))
  /\ forall sent,
       In (Route.call_remote sent)
         (fst (Route.POST unicode_upper env remote request)) ->
       exists payload key,
         request = Route.body_payload payload
         /\ Route.env_OPENAI_API_KEY env = Some key /\ key <> []
         /\ trim (nullish (Route.message payload) []) <> []
         /\ sent = chat_request env payload key.
Proof.
  destruct (POST_cases unicode_upper env remote request)
    as [[_ ->] | (payload & -> & [[Hm ->] | [(Hm & _ & ->) |
         (key & Hm & Hkey & Hne & [[_ ->] | (st & parsed & _ & _ & ->)])]])];
    cbn [fst]; split; eauto 6;
    intros sent Hin; simpl in Hin;
    repeat (destruct Hin as [Hin | Hin]; try discriminate Hin);
    try contradiction;
    injection Hin as <-; exists payload, key; repeat split; assumption.
Qed.

(** The request sent to the completion endpoint carries the key as a bearer
    token and the configured model, "gpt-4o-mini" when none is configured;
    its messages are the system prompt, then the six most recent entries
    among those of the history that have content, or all of them when they
    are fewer than six, in their order, then the trimmed message as the
    user's. *)
Theorem completion_request_shape
    (unicode_upper : code_unit -> js_string) (env : Route.Env)
    (remote : Route.ChatRequest -> Route.RemoteOutcome)
    (payload : Route.AssistantPayload) (sent : Route.ChatRequest) :
  In (Route.call_remote sent)
    (fst (Route.POST unicode_upper env remote (Route.body_payload payload))) ->
  exists key forwarded,
    Route.env_OPENAI_API_KEY env = Some key
    /\ Route.authorization sent = u16 "Bearer " ++ key
    /\ Route.model sent
       = match Route.env_OPENAI_MODEL env with
         | Some configured => configured
         | None => u16 "gpt-4o-mini"
         end
    /\ Route.messages sent
       = {| Route.chat_from := Route.chat_system;
            Route.chat_content := Route.SYSTEM_PROMPT |}
         :: map (fun m => {| Route.chat_from := Route.chat_role (Route.role m);
                             Route.chat_content := Route.content m |})
              forwarded
         ++ [{| Route.chat_from := Route.chat_user;
                Route.chat_content :=
                  trim (nullish (Route.message payload) []) |}]
    /\ List.length forwarded <= 6
    /\ Forall (fun m => Route.content m <> []) forwarded
    /\ (exists earlier,
          filter (fun m => truthy (Route.content m))
            (match Route.history payload with Some h => h | None => [] end)
          = earlier ++ forwarded)
    /\ List.length forwarded
       = Nat.min 6
           (List.length
              (filter (fun m => truthy (Route.content m))
                 (match Route.history payload with Some h => h | None => [] end)))
    /\ forwarded
       = skipn
           (List.length
              (filter (fun m => truthy (Route.content m))
                 (match Route.history payload with Some h => h | None => [] end))
            - 6)
           (filter (fun m => truthy (Route.content m))
              (match Route.history payload with Some h => h | None => [] end)).
Proof.
  intros Hin.
  destruct (POST_remote_call unicode_upper env remote
              (Route.body_payload payload) sent Hin)
    as (p & key & Hp & Hkey & _ & _ & ->).
  injection Hp as <-.
  exists key.
  exists (slice_last 6
            (filter (fun m => truthy (Route.content m))
               (match Route.history payload with Some h => h | None => [] end))).
  repeat split; trivial.
  - apply slice_last_length.
  - destruct (slice_last_suffix 6
                (filter (fun m => truthy (Route.content m))
                   (match Route.history payload with
                    | Some h => h
                    | None => []
                    end))) as (earlier & E).
    apply Forall_forall. intros m Hm.
    assert (Hf : In m (filter (fun m => truthy (Route.content m))
                         (match Route.history payload with
                          | Some h => h
                          | None => []
                          end)))
      by (rewrite E; apply in_or_app; now right).
    apply filter_In in Hf as [_ Hf]. now apply truthy_true.
  - apply slice_last_suffix.
  - apply slice_last_exact.
Qed.

(** Of the seven entries with content of the long history, the six most
    recent are forwarded: "one" is left out. *)
Lemma completion_request_shape_witness :
  exists key forwarded,
    Route.env_OPENAI_API_KEY keyed_env = Some key
    /\ Route.messages (chat_request keyed_env long_payload (u16 "sk-test"))
       = {| Route.chat_from := Route.chat_system;
            Route.chat_content := Route.SYSTEM_PROMPT |}
         :: map (fun m => {| Route.chat_from := Route.chat_role (Route.role m);
                             Route.chat_content := Route.content m |})
              forwarded
         ++ [{| Route.chat_from := Route.chat_user;
                Route.chat_content :=
                  trim (nullish (Route.message long_payload) []) |}]
    /\ map Route.content forwarded
       = [u16 "two"; u16 "three"; u16 "four"; u16 "five"; u16 "six";
          u16 "seven"].
Proof.
  destruct (completion_request_shape latin1_upper keyed_env failing_remote
              long_payload (chat_request keyed_env long_payload (u16 "sk-test")))
    as (key & forwarded & Hkey & _ & _ & Hmessages & _ & _ & _ & _ & Hsix).
  - vm_compute. left. reflexivity.
  - exists key, forwarded. split; [assumption|]. split; [assumption|].
    rewrite Hsix. reflexivity.
Defined.

(** Without a key, or with an empty one, the handler never contacts the
    completion endpoint: a message that is not blank is answered by the
    generator applied to the trimmed message, with status 200. *)
Theorem POST_offline_mode
    (unicode_upper : code_unit -> js_string) (env : Route.Env)
    (remote : Route.ChatRequest -> Route.RemoteOutcome)
    (payload : Route.AssistantPayload) :
  trim (nullish (Route.message payload) []) <> [] ->
  (Route.env_OPENAI_API_KEY env = None
   \/ Route.env_OPENAI_API_KEY env = Some []) ->
  Route.POST unicode_upper env remote (Route.body_payload payload)
  = ([Route.call_heuristic (trim (nullish (Route.message payload) []))],
     heuristic_response unicode_upper
       (trim (nullish (Route.message payload) []))).
Proof.
  intros Hmsg Hkey.
  exact (POST_without_key unicode_upper env remote payload Hmsg Hkey).
Qed.

Lemma POST_offline_mode_witness :
  fst (Route.POST latin1_upper keyless_env failing_remote
         (Route.body_payload long_payload))
  = [Route.call_heuristic critical_tasks_input].
Proof.
  rewrite (POST_offline_mode latin1_upper keyless_env failing_remote
             long_payload).
  - reflexivity.
  - vm_compute. discriminate.
  - left. reflexivity.
Defined.

(** With a key, when the completion endpoint answers the request with a
    status in 200-299 and content that parses, the handler returns the
    parsed object unchanged with status 200, whatever fields it has, and
    does not call the generator. *)
Theorem POST_passes_completion_on
    (unicode_upper : code_unit -> js_string) (env : Route.Env)
    (remote : Route.ChatRequest -> Route.RemoteOutcome)
    (payload : Route.AssistantPayload) (key : js_string) (st : N)
    (parsed : ResponseJson) :
  trim (nullish (Route.message payload) []) <> [] ->
  Route.env_OPENAI_API_KEY env = Some key -> key <> [] ->
  remote (chat_request env payload key)
  = Route.remote_response st (Route.content_parsed parsed) ->
  ok st = true ->
  Route.POST unicode_upper env remote (Route.body_payload payload)
  = ([Route.call_remote (chat_request env payload key)],
     Route.json parsed 200).
Proof.
  intros Hmsg Hkey Hne Hremote Hok. apply truthy_true in Hmsg.
  unfold Route.POST, Route.POST_try, Route.request_json, Route.bind, Route.ret,
    Route.complete.
  rewrite Hmsg, Hkey. cbn [negb]. destruct key as [|k key]; [congruence|].
  fold (chat_request env payload (k :: key)). rewrite Hremote, Hok.
  reflexivity.
Qed.

Lemma POST_passes_completion_on_witness :
  snd (Route.POST latin1_upper keyed_env empty_reply_remote
         (Route.body_payload long_payload))
  = Route.json empty_reply_data 200.
Proof.
  rewrite (POST_passes_completion_on latin1_upper keyed_env empty_reply_remote
             long_payload (u16 "sk-test") 200%N empty_reply_data).
  - reflexivity.
  - vm_compute. discriminate.
  - reflexivity.
  - discriminate.
  - reflexivity.
  - reflexivity.
Defined.

(** Whenever the handler calls the generator, on the message or in its
    [catch], the response has status 200 and carries the generator's reply,
    which is not empty, its summary and its follow-ups. *)
Theorem POST_generator_response
    (unicode_upper : code_unit -> js_string) (env : Route.Env)
    (remote : Route.ChatRequest -> Route.RemoteOutcome)
    (request : Route.RequestBody) (input : js_string) :
  In (Route.call_heuristic input)
    (fst (Route.POST unicode_upper env remote request)) ->
  snd (Route.POST unicode_upper env remote request)
  = heuristic_response unicode_upper input
  /\ json_reply (Route.body (heuristic_response unicode_upper input))
     = Some (reply (buildHeuristicResponse unicode_upper input))
  /\ reply (buildHeuristicResponse unicode_upper input) <> []
  /\ json_summary (Route.body (heuristic_response unicode_upper input)) <> None
  /\ json_followUps (Route.body (heuristic_response unicode_upper input))
     <> None.
Proof.
  intros Hin.
  assert (E : snd (Route.POST unicode_upper env remote request)
              = heuristic_response unicode_upper input).
  { destruct (POST_cases unicode_upper env remote request)
      as [[_ E] | (payload & _ & [[_ E] | [(_ & _ & E) |
           (key & _ & _ & _ & [[_ E] | (st & parsed & _ & _ & E)])]])];
      rewrite E in Hin |- *; simpl in Hin;
      repeat (destruct Hin as [Hin | Hin]; try discriminate Hin);
      try contradiction; injection Hin as <-; reflexivity. }
  split; [exact E|]. split; [reflexivity|]. split.
  - rewrite reply_sections.
    destruct (responseSections_first unicode_upper input) as (c & l & ls & ->).
    apply join_cons_nonempty.
  - split; discriminate.
Qed.

Lemma POST_generator_response_witness :
  snd (Route.POST latin1_upper keyed_env failing_remote
         (Route.body_payload long_payload))
  = heuristic_response latin1_upper [].
Proof.
  apply (POST_generator_response latin1_upper keyed_env failing_remote
           (Route.body_payload long_payload) []).
  vm_compute. right. left. reflexivity.
Defined.

(** ** The recognition handlers on arbitrary events *)

Lemma scan_fold (segments : list Agent.RecognitionEventResult)
    (interim finalTranscript : js_string) :
  fold_left
    (fun '(interim, finalTranscript) result =>
       if Agent.isFinal result
       then (interim, finalTranscript ++ Agent.transcript_of result)
       else (interim ++ Agent.transcript_of result, finalTranscript))
    segments (interim, finalTranscript)
  = (interim
     ++ List.concat
          (map Agent.transcript_of
             (filter (fun r => negb (Agent.isFinal r)) segments)),
     finalTranscript
     ++ List.concat (map Agent.transcript_of (filter Agent.isFinal segments))).
Proof.
  revert interim finalTranscript.
  induction segments as [|r segments IH]; intros interim finalTranscript.
  - simpl. now rewrite !app_nil_r.
  - simpl. destruct (Agent.isFinal r); simpl; rewrite IH;
      now rewrite <- app_assoc.
Qed.

(** The loop of [handleResult] reads only the segments from [resultIndex]
    on: the interim text is the transcripts of the interim ones among them,
    in order, and the final text those of the final ones; an index at or
    past the end yields two empty strings. *)
Theorem scan_results_partition (event : Agent.RecognitionEvent) :
  Agent.scan_results event
  = (List.concat
       (map Agent.transcript_of
          (filter (fun r => negb (Agent.isFinal r))
             (skipn (Agent.resultIndex event) (Agent.results event)))),
     List.concat
       (map Agent.transcript_of
          (filter Agent.isFinal
             (skipn (Agent.resultIndex event) (Agent.results event)))))
  /\ (List.length (Agent.results event) <= Agent.resultIndex event ->
      Agent.scan_results event = ([], [])).
Proof.
  unfold Agent.scan_results. split.
  - now rewrite scan_fold.
  - intros H. now rewrite skipn_all2.
Qed.

Lemma submitMessage_in_cases (render st : Agent.State) (fresh : Agent.Fresh)
    (text : js_string) :
  (Agent.submitMessage_in render st fresh text = (st, [], None)
   /\ (trim text = [] \/ Agent.isLoading render = true))
  \/ (trim text <> [] /\ Agent.isLoading render = false
      /\ exists st1 pending,
           Agent.submitMessage_in render st fresh text
           = (st1, [Agent.fetch_assistant (Agent.pending_request pending)],
              Some pending)
           /\ Agent.messages st1
              = Agent.messages st
                ++ [{| Agent.id := Agent.uuid fresh; Agent.role := user;
                       Agent.content := trim text;
                       Agent.createdAt := Agent.now fresh |}]
           /\ Agent.isLoading st1 = true
           /\ Agent.listening st1 = Agent.listening st
           /\ Agent.autoSpeak st1 = Agent.autoSpeak st).
Proof.
  destruct (trim text) as [|c t] eqn:Etext.
  - left. split; [|now left]. unfold Agent.submitMessage_in.
    now rewrite Etext.
  - destruct (Agent.isLoading render) eqn:Eload.
    + left. split; [|now right]. unfold Agent.submitMessage_in.
      now rewrite Etext, Eload.
    + right. split; [discriminate|]. split; [reflexivity|].
      unfold Agent.submitMessage_in. rewrite Etext, Eload. cbn [truthy negb orb].
      eexists.
      exists {| Agent.pending_request :=
                  {| Agent.request_message := c :: t;
                     Agent.request_history :=
                       slice_last 6 (Agent.messages render) |};
                Agent.pending_autoSpeak := Agent.autoSpeak render |}.
      split; [reflexivity|]. repeat split.
Qed.


(** After a recognition error the component is not listening and shows a
    message that is never empty: "I could not hear you." for the code
    [no-speech], the code itself for any other non-empty code, and "Voice
    input failed." when the code is empty.  The conversation and a round
    trip in flight are not affected. *)
Theorem handleError_message (st : Agent.State) (code : js_string) :
  (exists message,
     Agent.error (Agent.handleError st code) = Some message
     /\ message <> []
     /\ (code = u16 "no-speech" -> message = u16 "I could not hear you.")
     /\ (code <> u16 "no-speech" -> code <> [] -> message = code)
     /\ (code = [] -> message = u16 "Voice input failed."))
  /\ Agent.listening (Agent.handleError st code) = false
  /\ Agent.messages (Agent.handleError st code) = Agent.messages st
  /\ Agent.isLoading (Agent.handleError st code) = Agent.isLoading st
  /\ Agent.interimTranscript (Agent.handleError st code)
     = Agent.interimTranscript st.
Proof.
  split; [|repeat split]. unfold Agent.handleError.
  cbn [Agent.error Agent.setError Agent.setListening].
  destruct (list_eq_dec N.eq_dec code (u16 "no-speech")) as [E | Hne].
  - eexists. split; [reflexivity|]. split; [discriminate|].
    split; [reflexivity|]. split.
    + intros H. contradiction.
    + intros ->. discriminate E.
  - destruct code as [|c code]; cbn [truthy].
    + eexists. split; [reflexivity|]. split; [discriminate|].
      split; [intros H; discriminate H|]. split; [|reflexivity].
      intros _ H. now elim H.
    + eexists. split; [reflexivity|]. split; [discriminate|].
      split; [intros H; contradiction|]. split; [reflexivity|].
      intros H. discriminate H.
Qed.

(** ** Invariants of the component *)

Lemma takes_turns_snoc (first : Role) (history : list Agent.Message)
    (m : Agent.Message) :
  Runtime.takes_turns first history = true ->
  Agent.role m
  = (if Nat.odd (List.length history) then Runtime.other first else first) ->
  Runtime.takes_turns first (history ++ [m]) = true.
Proof.
  revert first. induction history as [|a history IH]; intros first Hturns Hrole.
  - simpl in *. rewrite Hrole. now destruct first.
  - cbn [Runtime.takes_turns app] in *.
    apply andb_prop in Hturns as [Ha Hturns]. rewrite Ha. cbn [andb].
    apply IH; [exact Hturns|]. rewrite Hrole.
    cbn [List.length]. rewrite Nat.odd_succ, <- Nat.negb_odd.
    destruct (Nat.odd (List.length history)), first; reflexivity.
Qed.

Lemma by_role_snoc (r : Role) (history : list Agent.Message)
    (m : Agent.Message) :
  List.length (Runtime.by_role r (history ++ [m]))
  = List.length (Runtime.by_role r history)
    + (if Runtime.role_eqb (Agent.role m) r then 1 else 0).
Proof.
  unfold Runtime.by_role. rewrite filter_app, length_app. f_equal.
  simpl. now destruct (Runtime.role_eqb (Agent.role m) r).
Qed.

Lemma resume_length {A : Type} (which : nat) (calls : list A) (p : A) :
  nth_error calls which = Some p ->
  List.length calls = S (List.length (Runtime.resume which calls)).
Proof.
  intros Hnth. unfold Runtime.resume.
  assert (Hlt : which < List.length calls)
    by (apply nth_error_Some; congruence).
  rewrite length_app, length_firstn, length_skipn. lia.
Qed.

Lemma settle_requests (null_reply_error : js_string) (pending : Agent.Pending)
    (st : Agent.State) (fresh : Agent.Fresh) (outcome : Agent.FetchOutcome) :
  Agent.requests
    (snd (Agent.submitMessage_settle null_reply_error pending st fresh outcome))
  = [].
Proof.
  destruct (submitMessage_settled null_reply_error pending st fresh outcome)
    as (m & _ & _ & _ & _ & ->).
  destruct (Agent.response_data null_reply_error outcome); [reflexivity|].
  now destruct (Agent.pending_autoSpeak pending).
Qed.

(** What one event does to the history, to the loading flag and to the
    suspended calls.  It leaves the three alone and issues no request; or a
    callback whose render was not loading accepts a text: a trimmed user
    utterance is appended, the component is loading, a call is suspended
    and its request issued; or a suspended call resumes: an assistant
    utterance is appended and the component is not loading any more. *)
Lemma step_cases (null_reply_error : js_string) (sys : Runtime.System)
    (event : Runtime.Event) :
  (Agent.messages (Runtime.ui (fst (Runtime.step null_reply_error sys event)))
   = Agent.messages (Runtime.ui sys)
   /\ Agent.isLoading (Runtime.ui (fst (Runtime.step null_reply_error sys event)))
      = Agent.isLoading (Runtime.ui sys)
   /\ Runtime.in_flight (fst (Runtime.step null_reply_error sys event))
      = Runtime.in_flight sys
   /\ Agent.requests (snd (Runtime.step null_reply_error sys event)) = [])
  \/ (exists m pending,
        Agent.messages
          (Runtime.ui (fst (Runtime.step null_reply_error sys event)))
        = Agent.messages (Runtime.ui sys) ++ [m]
        /\ Agent.role m = user
        /\ trim (Agent.content m) = Agent.content m
        /\ Agent.content m <> []
        /\ Agent.isLoading
             (Runtime.ui (fst (Runtime.step null_reply_error sys event)))
           = true
        /\ Runtime.in_flight (fst (Runtime.step null_reply_error sys event))
           = Runtime.in_flight sys ++ [pending]
        /\ Agent.requests (snd (Runtime.step null_reply_error sys event))
           = [Agent.pending_request pending]
        /\ (Agent.isLoading (Runtime.rendered sys) = false
            \/ Agent.isLoading (Runtime.listener sys) = false))
  \/ (exists which pending m,
        nth_error (Runtime.in_flight sys) which = Some pending
        /\ Agent.messages
             (Runtime.ui (fst (Runtime.step null_reply_error sys event)))
           = Agent.messages (Runtime.ui sys) ++ [m]
        /\ Agent.role m = assistant
        /\ Agent.isLoading
             (Runtime.ui (fst (Runtime.step null_reply_error sys event)))
           = false
        /\ Runtime.in_flight (fst (Runtime.step null_reply_error sys event))
           = Runtime.resume which (Runtime.in_flight sys)
        /\ Agent.requests (snd (Runtime.step null_reply_error sys event)) = []).
Proof.
  assert (Hsubmit : forall render st fresh text prefix,
    Agent.messages st = Agent.messages (Runtime.ui sys) ->
    Agent.isLoading st = Agent.isLoading (Runtime.ui sys) ->
    Agent.requests prefix = [] ->
    (Agent.isLoading render = false ->
     Agent.isLoading (Runtime.rendered sys) = false
     \/ Agent.isLoading (Runtime.listener sys) = false) ->
    forall result,
      Agent.submitMessage_in render st fresh text = result ->
      (Agent.messages (fst (fst result)) = Agent.messages (Runtime.ui sys)
       /\ Agent.isLoading (fst (fst result)) = Agent.isLoading (Runtime.ui sys)
       /\ Runtime.suspend (snd result) (Runtime.in_flight sys)
          = Runtime.in_flight sys
       /\ Agent.requests (prefix ++ snd (fst result)) = [])
      \/ (exists m pending,
            Agent.messages (fst (fst result))
            = Agent.messages (Runtime.ui sys) ++ [m]
            /\ Agent.role m = user
            /\ trim (Agent.content m) = Agent.content m
            /\ Agent.content m <> []
            /\ Agent.isLoading (fst (fst result)) = true
            /\ Runtime.suspend (snd result) (Runtime.in_flight sys)
               = Runtime.in_flight sys ++ [pending]
            /\ Agent.requests (prefix ++ snd (fst result))
               = [Agent.pending_request pending]
            /\ (Agent.isLoading (Runtime.rendered sys) = false
                \/ Agent.isLoading (Runtime.listener sys) = false))).
  { intros render st fresh text prefix Hm Hload Hprefix Hrender result <-.
    unfold Agent.requests in *. rewrite flat_map_app, Hprefix. cbn [app].
    destruct (submitMessage_in_cases render st fresh text)
      as [[-> _] | (Hne & Hidle & st1 & p & -> & Hm1 & Hload1 & _)];
      cbn [fst snd Runtime.suspend flat_map app].
    - left. repeat split; assumption.
    - right. exists {| Agent.id := Agent.uuid fresh; Agent.role := user;
                       Agent.content := trim text;
                       Agent.createdAt := Agent.now fresh |}, p.
      rewrite Hm1, Hm. cbn [Agent.role Agent.content].
      repeat split; trivial.
      + apply trim_idempotent.
      + now apply Hrender. }
  destruct event as [value | fresh | checked | supported | | event fresh | | code
                    | which outcome fresh | |]; cbn [Runtime.step].
  - left. cbn. repeat split.
  - pose proof (Hsubmit (Runtime.rendered sys) (Runtime.ui sys) fresh
                  (Agent.input (Runtime.rendered sys)) [] eq_refl eq_refl
                  eq_refl (fun H => or_introl H) _ eq_refl) as H.
    destruct (Agent.submitMessage_in (Runtime.rendered sys) (Runtime.ui sys)
                fresh (Agent.input (Runtime.rendered sys)))
      as [[st effects] pending].
    cbn [fst snd Runtime.update Runtime.ui Runtime.in_flight app] in *.
    destruct H as [H | H]; [left | right; left]; exact H.
  - left. cbn. repeat split.
  - left. unfold Speech.toggleListening.
    destruct supported, (Agent.listening (Runtime.rendered sys)); cbn;
      repeat split.
  - left. cbn. repeat split.
  - unfold Agent.handleResult_in.
    destruct (Agent.scan_results event) as [interim finalTranscript].
    destruct (truthy (trim finalTranscript)).
    + pose proof (Hsubmit (Runtime.listener sys)
                    (Agent.setInterimTranscript interim (Runtime.ui sys))
                    fresh (trim finalTranscript)
                    [Agent.call_submitMessage (trim finalTranscript)]
                    eq_refl eq_refl eq_refl (fun H => or_intror H) _ eq_refl)
        as H.
      destruct (Agent.submitMessage_in (Runtime.listener sys)
                  (Agent.setInterimTranscript interim (Runtime.ui sys)) fresh
                  (trim finalTranscript)) as [[st effects] pending].
      cbn [fst snd Runtime.update Runtime.ui Runtime.in_flight app] in *.
      destruct H as [H | H]; [left | right; left]; exact H.
    + left. cbn. repeat split.
  - left. cbn. repeat split.
  - left. cbn. repeat split.
  - destruct (nth_error (Runtime.in_flight sys) which) as [pending|] eqn:Hnth.
    + right. right.
      destruct (submitMessage_settled null_reply_error pending (Runtime.ui sys)
                  fresh outcome)
        as (m & Hm & Hrole & _ & Hload & _).
      pose proof (settle_requests null_reply_error pending (Runtime.ui sys)
                    fresh outcome) as Hreq.
      destruct (Agent.submitMessage_settle null_reply_error pending
                  (Runtime.ui sys) fresh outcome) as [st effects].
      cbn [fst snd Runtime.update Runtime.ui Runtime.in_flight] in *.
      exists which, pending, m. repeat split; assumption.
    + left. cbn. repeat split.
  - left. cbn. repeat split.
  - left. cbn. repeat split.
Qed.

Lemma step_invariant (null_reply_error : js_string) (sys : Runtime.System)
    (event : Runtime.Event) :
  Runtime.invariant sys ->
  Runtime.invariant (fst (Runtime.step null_reply_error sys event))
  /\ users (fst (Runtime.step null_reply_error sys event))
     = users sys
       + List.length
           (Agent.requests (snd (Runtime.step null_reply_error sys event))).
Proof.
  intros (Htrim & Howed & Hload). unfold Runtime.invariant, users.
  destruct (step_cases null_reply_error sys event)
    as [(Hm & Hl & Hf & Hr)
       | [(m & p & Hm & Hrole & Hmt & Hne & Hl & Hf & Hr & _)
         | (which & p & m & Hnth & Hm & Hrole & Hl & Hf & Hr)]];
    rewrite Hm, Hl, Hf, Hr.
  - cbn [List.length]. repeat split; trivial; lia.
  - rewrite !by_role_snoc, Hrole, length_app. cbn [Runtime.role_eqb List.length].
    split; [split; [|split]|].
    + apply Forall_app. split; [exact Htrim|]. constructor; [|constructor].
      intros _. split; assumption.
    + lia.
    + intros _. now destruct (Runtime.in_flight sys).
    + lia.
  - rewrite !by_role_snoc, Hrole. cbn [Runtime.role_eqb List.length].
    pose proof (resume_length which (Runtime.in_flight sys) p Hnth) as Hlen.
    split; [split; [|split]|].
    + apply Forall_app. split; [exact Htrim|]. constructor; [|constructor].
      intros H. congruence.
    + lia.
    + discriminate.
    + lia.
Qed.

Lemma invariant_start : Runtime.invariant Runtime.start.
Proof.
  unfold Runtime.invariant. cbn. repeat split; [constructor | discriminate].
Qed.

Lemma run_invariant (null_reply_error : js_string)
    (events : list Runtime.Event) (sys : Runtime.System) :
  Runtime.invariant sys ->
  Runtime.invariant (fst (Runtime.run null_reply_error sys events))
  /\ users (fst (Runtime.run null_reply_error sys events))
     = users sys
       + List.length
           (Agent.requests (snd (Runtime.run null_reply_error sys events))).
Proof.
  revert sys. induction events as [|event events IH]; intros sys Hinv.
  - cbn. split; [exact Hinv|lia].
  - cbn [Runtime.run].
    destruct (step_invariant null_reply_error sys event Hinv)
      as [Hinv1 Hcount1].
    destruct (Runtime.step null_reply_error sys event) as [sys1 effects].
    cbn [fst snd] in *.
    destruct (IH sys1 Hinv1) as [Hinv2 Hcount2].
    destruct (Runtime.run null_reply_error sys1 events) as [sys2 effects'].
    cbn [fst snd] in *. split; [exact Hinv2|].
    unfold Agent.requests in *. rewrite flat_map_app, length_app. lia.
Qed.

(** Whatever the user and the recognition source do, whenever React renders
    and runs the effects, and however the requests end: every utterance of
    the user in the history has its assistant utterance or a suspended call
    that will append one, so that the user utterances are as many as the
    assistant utterances and the suspended calls together; and the
    component shows that it is loading only while a call is suspended. *)
Theorem every_utterance_is_answered_or_pending (null_reply_error : js_string)
    (events : list Runtime.Event) :
  List.length
    (Runtime.by_role user
       (Agent.messages
          (Runtime.ui (fst (Runtime.run null_reply_error Runtime.start events)))))
  = List.length
      (Runtime.by_role assistant
         (Agent.messages
            (Runtime.ui (fst (Runtime.run null_reply_error Runtime.start events)))))
    + List.length
        (Runtime.in_flight (fst (Runtime.run null_reply_error Runtime.start events)))
  /\ (Agent.isLoading
        (Runtime.ui (fst (Runtime.run null_reply_error Runtime.start events)))
      = true ->
      Runtime.in_flight (fst (Runtime.run null_reply_error Runtime.start events))
      <> []).
Proof.
  destruct (run_invariant null_reply_error events Runtime.start invariant_start)
    as [(_ & Howed & Hload) _].
  split; assumption.
Qed.

(** One event followed by a render and a run of the effects keeps the
    callbacks up to date and the round trips serialized. *)
Lemma rendered_step_up_to_date (null_reply_error : js_string)
    (sys : Runtime.System) (event : Runtime.Event) :
  Runtime.up_to_date sys ->
  Runtime.up_to_date
    (fst (Runtime.run null_reply_error sys
            [event; Runtime.rendered_again; Runtime.effects_ran])).
Proof.
  intros (Hr & Hli & Hs & Ht & Hl).
  cbn [Runtime.run].
  pose proof (step_cases null_reply_error sys event) as Hcases.
  destruct (Runtime.step null_reply_error sys event) as [sys1 effects].
  cbn [fst snd Runtime.step Runtime.ui Runtime.rendered Runtime.listener
       Runtime.in_flight] in *.
  unfold Runtime.up_to_date, Runtime.serialized.
  cbn [Runtime.ui Runtime.rendered Runtime.listener Runtime.in_flight].
  split; [reflexivity|]. split; [reflexivity|].
  destruct Hcases
    as [(Hm & Hload & Hf & _)
       | [(m & p & Hm & Hrole & _ & _ & Hload & Hf & _ & Hidle)
         | (which & p & m & Hnth & Hm & Hrole & Hload & Hf & _)]];
    rewrite Hm, Hload, Hf.
  - repeat split; assumption.
  - rewrite Hr, Hli in Hidle.
    assert (Hidle' : Agent.isLoading (Runtime.ui sys) = false) by tauto.
    destruct Hs as [[Hbusy _] | [_ Hnone]]; [congruence|].
    rewrite Hidle' in Hl. rewrite Hnone. cbn [app].
    split; [left; split; [reflexivity | now exists p]|]. split.
    + apply takes_turns_snoc; [exact Ht|]. now rewrite <- Hl.
    + rewrite length_app. cbn [List.length].
      rewrite Nat.add_1_r, Nat.odd_succ, <- Nat.negb_odd, <- Hl. reflexivity.
  - destruct Hs as [[Hbusy (q & Hq)] | [_ Hnone]];
      [|rewrite Hnone in Hnth; destruct which; discriminate].
    rewrite Hq in Hnth. destruct which as [|which];
      [|destruct which; discriminate].
    rewrite Hbusy in Hl. rewrite Hq.
    split; [right; split; reflexivity|]. split.
    + apply takes_turns_snoc; [exact Ht|]. now rewrite <- Hl.
    + rewrite length_app. cbn [List.length].
      rewrite Nat.add_1_r, Nat.odd_succ, <- Nat.negb_odd, <- Hl. reflexivity.
Qed.

Lemma up_to_date_start : Runtime.up_to_date Runtime.start.
Proof.
  unfold Runtime.up_to_date, Runtime.serialized. cbn.
  repeat split. right. split; reflexivity.
Qed.

Lemma rendered_run_up_to_date (null_reply_error : js_string)
    (events : list Runtime.Event) (sys : Runtime.System) :
  Runtime.up_to_date sys ->
  Runtime.up_to_date
    (fst (Runtime.run null_reply_error sys (Runtime.rendered_each_time events))).
Proof.
  revert sys. induction events as [|event events IH]; intros sys Hup.
  - exact Hup.
  - pose proof (rendered_step_up_to_date null_reply_error sys event Hup) as H1.
    unfold Runtime.rendered_each_time in *. cbn [flat_map app].
    cbn [Runtime.run] in *.
    destruct (Runtime.step null_reply_error sys event) as [sys1 effects1].
    destruct (Runtime.step null_reply_error sys1 Runtime.rendered_again)
      as [sys2 effects2].
    destruct (Runtime.step null_reply_error sys2 Runtime.effects_ran)
      as [sys3 effects3].
    cbn [fst snd] in H1.
    specialize (IH sys3 H1).
    destruct (Runtime.run null_reply_error sys3
                (flat_map
                   (fun event0 =>
                      [event0; Runtime.rendered_again; Runtime.effects_ran])
                   events)) as [sys4 effects4].
    exact IH.
Qed.

(** When React renders the component and runs the effects after each
    event, so that every callback that runs is one of the latest render,
    round trips are serialized: at most one call of [submitMessage] is
    suspended at a time, and one is suspended exactly while the component
    is loading; the history takes turns, user first, and ends with a user's
    utterance, that is, has odd length, exactly while the component is
    loading. *)
Theorem up_to_date_callbacks_serialize (null_reply_error : js_string)
    (events : list Runtime.Event) :
  List.length
    (Runtime.in_flight
       (fst (Runtime.run null_reply_error Runtime.start
               (Runtime.rendered_each_time events)))) <= 1
  /\ (Agent.isLoading
        (Runtime.ui
           (fst (Runtime.run null_reply_error Runtime.start
                   (Runtime.rendered_each_time events)))) = true
      <-> Runtime.in_flight
            (fst (Runtime.run null_reply_error Runtime.start
                    (Runtime.rendered_each_time events))) <> [])
  /\ Runtime.takes_turns user
       (Agent.messages
          (Runtime.ui
             (fst (Runtime.run null_reply_error Runtime.start
                     (Runtime.rendered_each_time events))))) = true
  /\ Agent.isLoading
       (Runtime.ui
          (fst (Runtime.run null_reply_error Runtime.start
                  (Runtime.rendered_each_time events))))
     = Nat.odd
         (List.length
            (Agent.messages
               (Runtime.ui
                  (fst (Runtime.run null_reply_error Runtime.start
                          (Runtime.rendered_each_time events)))))).
Proof.
  destruct (rendered_run_up_to_date null_reply_error events Runtime.start
              up_to_date_start)
    as (_ & _ & Hs & Ht & Hl).
  split; [|split; [|split; assumption]].
  - destruct Hs as [[_ (p & ->)] | [_ ->]]; simpl; lia.
  - destruct Hs as [[Hbusy (p & Hp)] | [Hidle Hnone]].
    + rewrite Hp, Hbusy. split; [discriminate | reflexivity].
    + rewrite Hnone, Hidle. split; [discriminate | intros H; now elim H].
Qed.

(** Every user utterance that ever enters the history has a content that is
    not empty and has no white space at either end: [trim] leaves it as it
    is. *)
Theorem user_utterances_are_trimmed (null_reply_error : js_string)
    (events : list Runtime.Event) (m : Agent.Message) :
  In m
    (Agent.messages
       (Runtime.ui (fst (Runtime.run null_reply_error Runtime.start events)))) ->
  Agent.role m = user ->
  trim (Agent.content m) = Agent.content m /\ Agent.content m <> [].
Proof.
  intros Hin Hrole.
  destruct (run_invariant null_reply_error events Runtime.start invariant_start)
    as [(Hall & _) _].
  rewrite Forall_forall in Hall. exact (Hall m Hin Hrole).
Qed.

(** The requests issued to [/api/assistant] over any sequence of events are
    as many as the user utterances in the history: no utterance without its
    request, no request without its utterance. *)
Theorem one_request_per_user_utterance (null_reply_error : js_string)
    (events : list Runtime.Event) :
  List.length
    (Agent.requests (snd (Runtime.run null_reply_error Runtime.start events)))
  = List.length
      (Runtime.by_role user
         (Agent.messages
            (Runtime.ui (fst (Runtime.run null_reply_error Runtime.start events))))).
Proof.
  destruct (run_invariant null_reply_error events Runtime.start invariant_start)
    as [_ H].
  unfold users in H. cbn in H. now rewrite H.
Qed.

Lemma user_utterances_are_trimmed_witness :
  trim (u16 "list my tasks") = u16 "list my tasks".
Proof.
  apply (user_utterances_are_trimmed v8_null_reply_error typed_and_sent
           {| Agent.id := Agent.uuid sample_fresh; Agent.role := user;
              Agent.content := u16 "list my tasks";
              Agent.createdAt := Agent.now sample_fresh |}).
  - vm_compute. left. reflexivity.
  - reflexivity.
Defined.

(** ** Round trips through the route, in general *)







(** The request of an accepted submission carries the trimmed text as its
    message and, as its history, the six most recent utterances of the
    history that the callback holds, which is the history of the render
    that created it, in order; all of it when it has no more than six.
    The utterance being submitted is appended to the history shown and is
    not part of the history sent. *)
Theorem submitted_request_history (render st st1 : Agent.State)
    (fresh : Agent.Fresh) (text : js_string) (effects : list Agent.Effect)
    (pending : Agent.Pending) :
  Agent.submitMessage_in render st fresh text = (st1, effects, Some pending) ->
  effects = [Agent.fetch_assistant (Agent.pending_request pending)]
  /\ Agent.request_message (Agent.pending_request pending) = trim text
  /\ Agent.request_history (Agent.pending_request pending)
     = skipn (List.length (Agent.messages render) - 6) (Agent.messages render)
  /\ List.length (Agent.request_history (Agent.pending_request pending))
     = Nat.min 6 (List.length (Agent.messages render))
  /\ (exists earlier,
        Agent.messages render
        = earlier ++ Agent.request_history (Agent.pending_request pending))
  /\ (List.length (Agent.messages render) <= 6 ->
      Agent.request_history (Agent.pending_request pending)
      = Agent.messages render)
  /\ Agent.messages st1
     = Agent.messages st
       ++ [{| Agent.id := Agent.uuid fresh; Agent.role := user;
              Agent.content := trim text;
              Agent.createdAt := Agent.now fresh |}].
Proof.
  intros Hbegin.
  destruct (submitMessage_in_cases render st fresh text)
    as [[E _] | (Hne & Hidle & _)]; [congruence|].
  destruct (submitMessage_in_accepted render st fresh text Hne Hidle)
    as (st' & p & E & Hm & _ & _ & _ & _ & Hmsg & Hhist & _).
  rewrite E in Hbegin. injection Hbegin as <- <- <-.
  split; [reflexivity|]. split; [exact Hmsg|]. rewrite Hhist.
  split; [reflexivity|].
  split; [apply slice_last_exact|]. split; [apply slice_last_suffix|].
  split; [apply slice_last_short | exact Hm].
Qed.

(** After four round trips the history has eight utterances; the request
    of the next submission carries the last six. *)
Lemma submitted_request_history_witness :
  map Agent.content
    (Agent.request_history
       (Agent.pending_request
          {| Agent.pending_request :=
               {| Agent.request_message := critical_tasks_input;
                  Agent.request_history := skipn 2 eight_utterances |};
             Agent.pending_autoSpeak := true |}))
  = [u16 "three"; u16 "four"; u16 "five"; u16 "six"; u16 "seven"; u16 "eight"].
Proof.
  destruct (submitted_request_history chatty_state chatty_state
              (fst (fst (Agent.submitMessage_in chatty_state chatty_state
                           sample_fresh critical_tasks_input)))
              sample_fresh critical_tasks_input
              [Agent.fetch_assistant
                 {| Agent.request_message := critical_tasks_input;
                    Agent.request_history := skipn 2 eight_utterances |}]
              {| Agent.pending_request :=
                   {| Agent.request_message := critical_tasks_input;
                      Agent.request_history := skipn 2 eight_utterances |};
                 Agent.pending_autoSpeak := true |})
    as (_ & _ & -> & _).
  - reflexivity.
  - reflexivity.
Defined.

(** ** The voice chosen by [speak] *)

Lemma find_none_iff {A : Type} (f : A -> bool) (l : list A) :
  find f l = None <-> forall x, In x l -> f x = false.
Proof.
  split; [apply find_none|].
  induction l as [|a l IH]; intros H; [reflexivity|].
  simpl. rewrite (H a (or_introl eq_refl)). apply IH.
  intros x Hx. apply H. now right.
Qed.

Lemma english_spec (up : code_unit -> js_string) (v : Speech.Voice) :
  Speech.english up v = true <-> contains_ci (u16 "english") (Speech.lang v).
Proof. apply test_i_word. reflexivity. Qed.

Lemma indian_english_spec (up : code_unit -> js_string) (v : Speech.Voice) :
  Speech.indian_english up v = true
  <-> contains_ci (u16 "english") (Speech.lang v)
      /\ contains_ci (u16 "india") (Speech.name v).
Proof.
  unfold Speech.indian_english.
  rewrite andb_true_iff, english_spec, test_i_word by reflexivity.
  reflexivity.
Qed.

(** [speak] chooses a voice only among those whose [lang] contains
    "english" (up to case), and none exactly when there is no such voice;
    if some of them also have "india" in their name, the voice chosen is
    one of these. *)
Theorem pick_voice_preference
    (unicode_upper : code_unit -> js_string) (voices : list Speech.Voice) :
  (Speech.pick_voice unicode_upper voices = None
   <-> forall v, In v voices -> ~ contains_ci (u16 "english") (Speech.lang v))
  /\ (forall v,
        Speech.pick_voice unicode_upper voices = Some v ->
        In v voices /\ contains_ci (u16 "english") (Speech.lang v))
  /\ ((exists v,
         In v voices
         /\ contains_ci (u16 "english") (Speech.lang v)
         /\ contains_ci (u16 "india") (Speech.name v)) ->
      exists v,
        Speech.pick_voice unicode_upper voices = Some v
        /\ contains_ci (u16 "india") (Speech.name v)).
Proof.
  unfold Speech.pick_voice. split; [|split].
  - split.
    + intros H v Hin Hv.
      destruct (find (Speech.indian_english unicode_upper) voices);
        [discriminate|].
      destruct (find (Speech.english unicode_upper) voices) eqn:E;
        [discriminate|].
      apply english_spec with (up := unicode_upper) in Hv.
      rewrite (find_none _ _ E v Hin) in Hv. discriminate.
    + intros H.
      assert (He : find (Speech.english unicode_upper) voices = None).
      { apply find_none_iff. intros v Hin. apply not_true_is_false.
        intros Hv. apply english_spec in Hv. exact (H v Hin Hv). }
      assert (Hi : find (Speech.indian_english unicode_upper) voices = None).
      { apply find_none_iff. intros v Hin. apply not_true_is_false.
        intros Hv. apply indian_english_spec in Hv. exact (H v Hin (proj1 Hv)). }
      now rewrite Hi, He.
  - intros v H.
    destruct (find (Speech.indian_english unicode_upper) voices) as [w|] eqn:Ei.
    + injection H as <-. apply find_some in Ei as [Hin Hw].
      apply indian_english_spec in Hw. split; [exact Hin | exact (proj1 Hw)].
    + destruct (find (Speech.english unicode_upper) voices) as [w|] eqn:Ee;
        [|discriminate].
      injection H as <-. apply find_some in Ee as [Hin Hw].
      apply english_spec in Hw. split; assumption.
  - intros (v & Hin & He & Hn).
    destruct (find (Speech.indian_english unicode_upper) voices) as [w|] eqn:Ei.
    + exists w. split; [reflexivity|]. apply find_some in Ei as [_ Hw].
      apply indian_english_spec in Hw. exact (proj2 Hw).
    + exfalso.
      assert (Hv : Speech.indian_english unicode_upper v = true)
        by (apply indian_english_spec; split; assumption).
      rewrite (find_none _ _ Ei v Hin) in Hv. discriminate.
Qed.

(** ** The task board *)

Lemma js_eqb_eq (a b : js_string) : Board.js_eqb a b = true <-> a = b.
Proof.
  unfold Board.js_eqb. destruct (list_eq_dec N.eq_dec a b); split;
    congruence.
Qed.

Lemma js_eqb_neq (a b : js_string) : Board.js_eqb a b = false <-> a <> b.
Proof.
  unfold Board.js_eqb. destruct (list_eq_dec N.eq_dec a b); split;
    congruence.
Qed.

Lemma addTask_invalid (uuid : js_string) (st : Board.State) :
  List.length (Board.draft_title (Board.draft st)) < 3
  \/ List.length (Board.draft_details (Board.draft st)) < 5 ->
  Board.tasks (Board.addTask uuid st) = Board.tasks st
  /\ Board.draft (Board.addTask uuid st) = Board.draft st
  /\ Board.lookup (u16 "title") (Board.errors (Board.addTask uuid st))
     = (if Nat.ltb (List.length (Board.draft_title (Board.draft st))) 3
        then Some (u16 "Give your task a short name.") else None)
  /\ Board.lookup (u16 "details") (Board.errors (Board.addTask uuid st))
     = (if Nat.ltb (List.length (Board.draft_details (Board.draft st))) 5
        then Some (u16 "Describe the outcome you want.") else None).
Proof.
  intros H. unfold Board.addTask, Board.issues.
  destruct (Nat.ltb_spec (List.length (Board.draft_title (Board.draft st))) 3);
    destruct (Nat.ltb_spec (List.length (Board.draft_details (Board.draft st))) 5);
    try lia; repeat split; reflexivity.
Qed.

Lemma addTask_valid (uuid : js_string) (st : Board.State) :
  3 <= List.length (Board.draft_title (Board.draft st)) ->
  5 <= List.length (Board.draft_details (Board.draft st)) ->
  Board.addTask uuid st
  = {| Board.tasks :=
         {| Board.id := uuid;
            Board.title := Board.draft_title (Board.draft st);
            Board.details := Board.draft_details (Board.draft st);
            Board.marketplaceFocus :=
              Some (Board.draft_marketplaceFocus (Board.draft st));
            Board.status := Board.pending;
            Board.due := Some (Board.draft_due (Board.draft st)) |}
         :: Board.tasks st;
       Board.draft := Board.empty_draft;
       Board.errors := [] |}.
Proof.
  intros Ht Hd. unfold Board.addTask, Board.issues.
  destruct (Nat.ltb_spec (List.length (Board.draft_title (Board.draft st))) 3);
    [lia|].
  destruct (Nat.ltb_spec (List.length (Board.draft_details (Board.draft st))) 5);
    [lia|].
  reflexivity.
Qed.

(** A draft whose title has fewer than three code units, or whose details
    have fewer than five, is not added: the tasks and the draft stay as they
    are, and the errors hold the message of each failing field and nothing
    for the other. *)
Theorem addTask_rejects_short_draft (uuid : js_string) (st : Board.State) :
  List.length (Board.draft_title (Board.draft st)) < 3
  \/ List.length (Board.draft_details (Board.draft st)) < 5 ->
  Board.tasks (Board.addTask uuid st) = Board.tasks st
  /\ Board.draft (Board.addTask uuid st) = Board.draft st
  /\ Board.lookup (u16 "title") (Board.errors (Board.addTask uuid st))
     = (if Nat.ltb (List.length (Board.draft_title (Board.draft st))) 3
        then Some (u16 "Give your task a short name.") else None)
  /\ Board.lookup (u16 "details") (Board.errors (Board.addTask uuid st))
     = (if Nat.ltb (List.length (Board.draft_details (Board.draft st))) 5
        then Some (u16 "Describe the outcome you want.") else None).
Proof. exact (addTask_invalid uuid st). Qed.

Lemma addTask_rejects_short_draft_witness :
  Board.tasks
    (Board.addTask (u16 "task-2")
       {| Board.tasks := Board.tasks festive_board; Board.draft := short_draft;
          Board.errors := [] |})
  = Board.tasks festive_board.
Proof.
  apply (addTask_rejects_short_draft (u16 "task-2")
           {| Board.tasks := Board.tasks festive_board;
              Board.draft := short_draft; Board.errors := [] |}).
  left. vm_compute. lia.
Defined.

(** A draft with a title of at least three code units and details of at
    least five is added in front of the other tasks, as a pending task with
    the draft's four fields and the fresh identifier; the draft is emptied
    and the errors are cleared. *)
Theorem addTask_adds_pending_task (uuid : js_string) (st : Board.State) :
  3 <= List.length (Board.draft_title (Board.draft st)) ->
  5 <= List.length (Board.draft_details (Board.draft st)) ->
  Board.addTask uuid st
  = {| Board.tasks :=
         {| Board.id := uuid;
            Board.title := Board.draft_title (Board.draft st);
            Board.details := Board.draft_details (Board.draft st);
            Board.marketplaceFocus :=
              Some (Board.draft_marketplaceFocus (Board.draft st));
            Board.status := Board.pending;
            Board.due := Some (Board.draft_due (Board.draft st)) |}
         :: Board.tasks st;
       Board.draft := Board.empty_draft;
       Board.errors := [] |}.
Proof. exact (addTask_valid uuid st). Qed.

Lemma addTask_adds_pending_task_witness :
  map Board.status (Board.tasks festive_board) = [Board.pending].
Proof.
  unfold festive_board.
  rewrite (addTask_adds_pending_task (u16 "task-1")
             {| Board.tasks := []; Board.draft := festive_draft;
                Board.errors := [] |}).
  - reflexivity.
  - vm_compute. lia.
  - vm_compute. lia.
Defined.

Lemma updateStatus_ids (target : js_string) (s : Board.TaskStatus)
    (st : Board.State) :
  map Board.id (Board.tasks (Board.updateStatus target s st))
  = map Board.id (Board.tasks st).
Proof.
  unfold Board.updateStatus. cbn [Board.tasks]. rewrite map_map.
  apply map_ext. intros t. now destruct (Board.js_eqb (Board.id t) target).
Qed.

Lemma addTask_tasks (uuid : js_string) (st : Board.State) :
  Board.tasks (Board.addTask uuid st) = Board.tasks st
  \/ exists t,
       Board.tasks (Board.addTask uuid st) = t :: Board.tasks st
       /\ Board.id t = uuid /\ valid_task t /\ Board.status t = Board.pending.
Proof.
  destruct (Nat.ltb_spec (List.length (Board.draft_title (Board.draft st))) 3)
    as [Ht | Ht];
    [left; apply (addTask_invalid uuid st); now left|].
  destruct (Nat.ltb_spec (List.length (Board.draft_details (Board.draft st))) 5)
    as [Hd | Hd];
    [left; apply (addTask_invalid uuid st); now right|].
  right. rewrite (addTask_valid uuid st Ht Hd).
  eexists. split; [reflexivity|]. repeat split; assumption.
Qed.

Lemma act_valid (st : Board.State) (a : Board.Action) :
  Forall valid_task (Board.tasks st) ->
  Forall valid_task (Board.tasks (Board.act st a)).
Proof.
  intros H. destruct a as [v | v | v | v | uuid | target s | target];
    cbn [Board.act]; try exact H.
  - destruct (addTask_tasks uuid st) as [-> | (t & -> & _ & Ht & _)];
      [exact H | now constructor].
  - unfold Board.updateStatus. cbn [Board.tasks]. apply Forall_map.
    revert H. apply Forall_impl. intros t Ht.
    now destruct (Board.js_eqb (Board.id t) target).
  - unfold Board.removeTask. cbn [Board.tasks]. rewrite Forall_forall in *.
    intros t Hin. apply filter_In in Hin as [Hin _]. now apply H.
Qed.

(** Whatever is done on the board, every task on it has a title of at
    least three code units and details of at least five: what validation
    lets in stays valid under status changes and removals. *)
Theorem board_tasks_are_valid (actions : list Board.Action) :
  Forall valid_task (Board.tasks (Board.run Board.initial actions)).
Proof.
  assert (G : forall st, Forall valid_task (Board.tasks st) ->
                         Forall valid_task (Board.tasks (Board.run st actions))).
  { induction actions as [|a actions IH]; intros st H; [exact H|].
    cbn [Board.run]. apply IH. now apply act_valid. }
  apply G. constructor.
Qed.

Lemma removeTask_ids (target : js_string) (st : Board.State)
    (later : list js_string) :
  NoDup (map Board.id (Board.tasks st) ++ later) ->
  NoDup (map Board.id (Board.tasks (Board.removeTask target st)) ++ later).
Proof.
  unfold Board.removeTask. cbn [Board.tasks].
  induction (Board.tasks st) as [|t ts IH]; intros H; [exact H|].
  cbn [map app filter] in *. apply NoDup_cons_iff in H as [Hnotin H].
  destruct (negb (Board.js_eqb (Board.id t) target)); [|now apply IH].
  cbn [map app]. constructor; [|now apply IH].
  intros Hin. apply Hnotin. apply in_app_or in Hin as [Hin | Hin];
    apply in_or_app; [left | now right].
  apply in_map_iff in Hin as (t' & Hid & Hin).
  apply filter_In in Hin as [Hin _]. apply in_map_iff. now exists t'.
Qed.

Lemma run_ids_unique (actions : list Board.Action) (st : Board.State) :
  NoDup (map Board.id (Board.tasks st) ++ Board.uuids actions) ->
  NoDup (map Board.id (Board.tasks (Board.run st actions))).
Proof.
  revert st. induction actions as [|a actions IH]; intros st H.
  - cbn in H. now rewrite app_nil_r in H.
  - cbn [Board.run]. apply IH.
    destruct a as [v | v | v | v | uuid | target s | target];
      cbn [Board.act Board.uuids flat_map app] in *; try exact H.
    + fold (Board.uuids actions) in *.
      destruct (addTask_tasks uuid st) as [-> | (t & -> & Hid & _)].
      * now apply NoDup_remove_1 in H.
      * cbn [map app]. rewrite Hid. apply NoDup_remove in H as [H Hnotin].
        now constructor.
    + now rewrite updateStatus_ids.
    + now apply removeTask_ids.
Qed.

(** As long as the identifiers drawn for new tasks are pairwise distinct,
    the tasks on the board have pairwise distinct identifiers, so a status
    change or a removal by identifier concerns at most one task. *)
Theorem board_ids_are_unique (actions : list Board.Action) :
  NoDup (Board.uuids actions) ->
  NoDup (map Board.id (Board.tasks (Board.run Board.initial actions))).
Proof. intros H. now apply run_ids_unique. Qed.

Lemma board_ids_are_unique_witness :
  NoDup
    (map Board.id
       (Board.tasks
          (Board.run Board.initial
             [Board.title_changed (u16 "Launch bundles");
              Board.details_changed (u16 "Refresh listing images");
              Board.form_submitted (u16 "task-1");
              Board.title_changed (u16 "Reprice kurtas");
              Board.details_changed (u16 "Match competitor price");
              Board.form_submitted (u16 "task-2");
              Board.status_clicked (u16 "task-1") Board.active]))).
Proof.
  apply (board_ids_are_unique
           [Board.title_changed (u16 "Launch bundles");
            Board.details_changed (u16 "Refresh listing images");
            Board.form_submitted (u16 "task-1");
            Board.title_changed (u16 "Reprice kurtas");
            Board.details_changed (u16 "Match competitor price");
            Board.form_submitted (u16 "task-2");
            Board.status_clicked (u16 "task-1") Board.active]).
  cbn. repeat (constructor; [simpl; intuition discriminate|]). constructor.
Defined.

(** Removing by identifier leaves exactly the tasks with another
    identifier, in their order, and touches neither the draft nor the
    errors; when no task has the identifier nothing changes. *)
Theorem removeTask_removes (target : js_string) (st : Board.State) :
  (forall t,
     In t (Board.tasks (Board.removeTask target st))
     <-> In t (Board.tasks st) /\ Board.id t <> target)
  /\ (exists keep,
        Board.tasks (Board.removeTask target st) = filter keep (Board.tasks st))
  /\ Board.draft (Board.removeTask target st) = Board.draft st
  /\ Board.errors (Board.removeTask target st) = Board.errors st
  /\ ((forall t, In t (Board.tasks st) -> Board.id t <> target) ->
      Board.tasks (Board.removeTask target st) = Board.tasks st).
Proof.
  unfold Board.removeTask. cbn [Board.tasks Board.draft Board.errors].
  split; [|split; [|split; [|split]]]; try reflexivity.
  - intros t. rewrite filter_In, negb_true_iff, js_eqb_neq. reflexivity.
  - now eexists.
  - intros H. induction (Board.tasks st) as [|t ts IH]; [reflexivity|].
    cbn [filter].
    assert (Ht : Board.js_eqb (Board.id t) target = false)
      by (apply js_eqb_neq, H; now left).
    rewrite Ht. cbn [negb]. f_equal. apply IH. intros t' Hin. apply H.
    now right.
Qed.

(** A status change by identifier keeps the number, the order, the
    identifiers, the titles and the details of the tasks; every task with
    that identifier ends up with the new status and every other task is
    unchanged; doing it twice is doing it once. *)
Theorem updateStatus_sets_status (target : js_string) (s : Board.TaskStatus)
    (st : Board.State) :
  map Board.id (Board.tasks (Board.updateStatus target s st))
  = map Board.id (Board.tasks st)
  /\ map Board.title (Board.tasks (Board.updateStatus target s st))
     = map Board.title (Board.tasks st)
  /\ map Board.details (Board.tasks (Board.updateStatus target s st))
     = map Board.details (Board.tasks st)
  /\ (forall t,
        In t (Board.tasks (Board.updateStatus target s st)) ->
        Board.id t = target -> Board.status t = s)
  /\ (forall t,
        In t (Board.tasks st) -> Board.id t <> target ->
        In t (Board.tasks (Board.updateStatus target s st)))
  /\ Board.updateStatus target s (Board.updateStatus target s st)
     = Board.updateStatus target s st.
Proof.
  split; [apply updateStatus_ids|].
  unfold Board.updateStatus. cbn [Board.tasks Board.draft Board.errors].
  split; [|split; [|split; [|split]]].
  - rewrite map_map. apply map_ext. intros t.
    now destruct (Board.js_eqb (Board.id t) target).
  - rewrite map_map. apply map_ext. intros t.
    now destruct (Board.js_eqb (Board.id t) target).
  - intros t Hin Hid. apply in_map_iff in Hin as (t0 & <- & _).
    destruct (Board.js_eqb (Board.id t0) target) eqn:E; [reflexivity|].
    apply js_eqb_neq in E. contradiction.
  - intros t Hin Hid. apply in_map_iff. exists t. split; [|exact Hin].
    apply js_eqb_neq in Hid. now rewrite Hid.
  - f_equal. rewrite map_map. apply map_ext. intros t.
    destruct (Board.js_eqb (Board.id t) target) eqn:E.
    + cbn [Board.with_status Board.id]. now rewrite E.
    + now rewrite E.
Qed.

Lemma ascii_playbook (play : list js_string * js_string) :
  In play Board.automationPlaybook -> forallb is_ascii_word (fst play) = true.
Proof.
  intros H. unfold Board.automationPlaybook in H.
  repeat (destruct H as [<- | H]; [reflexivity|]). destruct H.
Qed.

Lemma in_firstn {A : Type} (n : nat) (l : list A) (x : A) :
  In x (firstn n l) -> In x l.
Proof.
  intros H. rewrite <- (firstn_skipn n l). apply in_or_app. now left.
Qed.

Lemma flat_map_nil {A B : Type} (f : A -> list B) (l : list A) :
  (forall x, In x l -> f x = []) -> flat_map f l = [].
Proof.
  induction l as [|a l IH]; intros H; [reflexivity|].
  simpl. rewrite (H a (or_introl eq_refl)). apply IH.
  intros x Hx. apply H. now right.
Qed.

(** With no task on the board the panel shows the three default
    suggestions.  With tasks it shows at most four, and each is the title of
    a task on the board, a colon, and the recommendation of a play one of
    whose words occurs (up to case) in that task's title or details; when no
    word of any play occurs in any task, it shows none. *)
Theorem suggestions_are_derived
    (unicode_upper : code_unit -> js_string) (task : Board.Task)
    (others : list Board.Task) :
  Board.suggestions unicode_upper [] = Board.default_suggestions
  /\ List.length (Board.suggestions unicode_upper (task :: others)) <= 4
  /\ (forall suggestion,
        In suggestion (Board.suggestions unicode_upper (task :: others)) ->
        exists t play word,
          In t (task :: others)
          /\ In play Board.automationPlaybook
          /\ In word (fst play)
          /\ (contains_ci word (Board.title t)
              \/ contains_ci word (Board.details t))
          /\ suggestion = Board.title t ++ u16 ": " ++ snd play)
  /\ ((forall t play word,
         In t (task :: others) -> In play Board.automationPlaybook ->
         In word (fst play) ->
         ~ contains_ci word (Board.title t)
         /\ ~ contains_ci word (Board.details t)) ->
      Board.suggestions unicode_upper (task :: others) = []).
Proof.
  split; [reflexivity|]. cbn [Board.suggestions].
  split; [apply firstn_le_length|]. split.
  - intros suggestion Hin. apply in_firstn in Hin.
    apply in_flat_map in Hin as (t & Ht & Hin).
    unfold Board.derived_for in Hin.
    apply in_flat_map in Hin as (play & Hplay & Hin).
    destruct (test_i unicode_upper (fst play) (Board.title t)
              || test_i unicode_upper (fst play) (Board.details t)) eqn:E;
      [|destruct Hin].
    destruct Hin as [<- | []].
    apply orb_true_iff in E.
    pose proof (ascii_playbook play Hplay) as Hascii.
    destruct E as [E | E];
      apply (test_i_spec unicode_upper _ _ Hascii) in E as (word & Hw & Hc);
      exists t, play, word; repeat split; auto.
  - intros Hnone.
    assert (E : flat_map (Board.derived_for unicode_upper) (task :: others) = []).
    { apply flat_map_nil. intros t Ht. unfold Board.derived_for.
      apply flat_map_nil. intros play Hplay.
      pose proof (ascii_playbook play Hplay) as Hascii.
      rewrite !(test_i_false unicode_upper _ _ Hascii); [reflexivity|..];
        intros word Hw; now apply (Hnone t play word). }
    rewrite E. reflexivity.
Qed.
